(** * TeamAchievementNotification: queueing, sequencing and acknowledgment

    A shallow embedding of the React component [TeamAchievementNotification]
    (the second document of [src/scripts/check-env.mjs]).

    The component owns three pieces of React state ([notifications],
    [showNotification], [currentNotification]) and talks to four
    collaborators: the Supabase query builder, the Supabase realtime channel,
    the browser timers and the [canvas-confetti] function.  Every function
    of the component is embedded as a transformer of a [World] that holds
    the React state together with what those collaborators hold on behalf of
    the component (requests in flight, pending timers, the subscription).

    Closures are modelled explicitly: a function created during a render
    sees the state of that render, so a callback that runs later carries the
    [State] it captured.  The [userId] prop is the same for the lifetime of
    the component, and the state updates a handler makes before it returns
    are committed together. *)

From Stdlib Require Import List ZArith String Bool Lia QArith Sorted Permutation.
Import ListNotations.
Local Open Scope Z_scope.
Local Open Scope list_scope.

(** ** Data model *)

(** [interface TeamAchievement]; [metadata: any] is kept as opaque text. *)
Record TeamAchievement := mkAchievement {
  ach_id : string;
  ach_team_id : string;
  achievement_type : string;
  title : string;
  description : string;
  achieved_at : string;
  metadata : string;
  celebrated : bool
}.

(** [interface TeamAchievementNotification].  [created_at] is a timestamp
    column; it is kept as the integer the store compares. *)
Record Notification := mkNotification {
  id : string;
  team_id : string;
  user_id : string;
  achievement_id : string;
  is_read : bool;
  created_at : Z;
  team_achievements : TeamAchievement
}.

(** The three [useState] cells, as one render sees them. *)
Record State := mkState {
  notifications : list Notification;
  showNotification : bool;
  currentNotification : option Notification
}.

(** [useState([])], [useState(false)], [useState(null)]. *)
Definition initial_state : State := mkState [] false None.

(** What [await supabase.from(...).select(...)...] resolves to: the client
    reports a failure in the [error] field of the value it resolves to. *)
Record QueryResult := mkQueryResult {
  data : option (list Notification);
  error : option string
}.

(** What [await supabase.rpc('mark_team_notification_read', ...)] resolves
    to, a failure included; the component discards it. *)
Inductive RpcResult := RpcOk | RpcError (msg : string).

(** The calls the component makes on its collaborators, in program order. *)
Inductive Action :=
| Select                              (* the unread query is issued *)
| Subscribe                           (* channel(...).on(...).subscribe() *)
| Unsubscribe                         (* subscription.unsubscribe() *)
| MarkRead (nid : string)             (* rpc('mark_team_notification_read') *)
| SetTimeout (delay : Z)
| SetInterval (period : Z)
| ClearInterval
| Confetti (particleCount : Q)        (* one confetti(...) call *)
| ConsoleError (msg : string).        (* console.error(...) *)

(** A running [setInterval] of [triggerConfetti]: when it fires next, and
    the [animationEnd] its callback closed over. *)
Record Interval := mkInterval {
  next_fire : Z;
  animationEnd : Z
}.

(** What a [useEffect] callback may hand back to React. *)
Inductive Cleanup := CleanupUnsubscribe.

Inductive Phase := Fresh | Mounted | Unmounted.

Record World := mkWorld {
  st : State;                      (* the committed React state *)
  phase : Phase;
  effect_pending : bool;           (* the [notifications] effect awaits its flush *)
  cleanups : list Cleanup;         (* what the effects returned to React *)
  subscribed : bool;               (* the realtime channel is delivering *)
  loads : nat;                     (* unread queries in flight *)
  rpcs : list State;               (* handleClose calls suspended at await *)
  timers : list (Z * State);       (* setTimeout: due time, captured render *)
  intervals : list Interval;
  now : Z;                         (* Date.now() *)
  log : list Action
}.

Definition init : World :=
  mkWorld initial_state Fresh false [] false 0 [] [] [] 0 [].

(** ** Field updates *)

Definition with_st (s : State) (w : World) : World :=
  mkWorld s (phase w) (effect_pending w) (cleanups w) (subscribed w)
          (loads w) (rpcs w) (timers w) (intervals w) (now w) (log w).

Definition with_phase (p : Phase) (w : World) : World :=
  mkWorld (st w) p (effect_pending w) (cleanups w) (subscribed w)
          (loads w) (rpcs w) (timers w) (intervals w) (now w) (log w).

Definition with_effect_pending (b : bool) (w : World) : World :=
  mkWorld (st w) (phase w) b (cleanups w) (subscribed w)
          (loads w) (rpcs w) (timers w) (intervals w) (now w) (log w).

Definition with_cleanups (c : list Cleanup) (w : World) : World :=
  mkWorld (st w) (phase w) (effect_pending w) c (subscribed w)
          (loads w) (rpcs w) (timers w) (intervals w) (now w) (log w).

Definition with_subscribed (b : bool) (w : World) : World :=
  mkWorld (st w) (phase w) (effect_pending w) (cleanups w) b
          (loads w) (rpcs w) (timers w) (intervals w) (now w) (log w).

Definition with_loads (n : nat) (w : World) : World :=
  mkWorld (st w) (phase w) (effect_pending w) (cleanups w) (subscribed w)
          n (rpcs w) (timers w) (intervals w) (now w) (log w).

Definition with_rpcs (r : list State) (w : World) : World :=
  mkWorld (st w) (phase w) (effect_pending w) (cleanups w) (subscribed w)
          (loads w) r (timers w) (intervals w) (now w) (log w).

Definition with_timers (t : list (Z * State)) (w : World) : World :=
  mkWorld (st w) (phase w) (effect_pending w) (cleanups w) (subscribed w)
          (loads w) (rpcs w) t (intervals w) (now w) (log w).

Definition with_intervals (i : list Interval) (w : World) : World :=
  mkWorld (st w) (phase w) (effect_pending w) (cleanups w) (subscribed w)
          (loads w) (rpcs w) (timers w) i (now w) (log w).

Definition with_now (t : Z) (w : World) : World :=
  mkWorld (st w) (phase w) (effect_pending w) (cleanups w) (subscribed w)
          (loads w) (rpcs w) (timers w) (intervals w) t (log w).

Definition emit (a : Action) (w : World) : World :=
  mkWorld (st w) (phase w) (effect_pending w) (cleanups w) (subscribed w)
          (loads w) (rpcs w) (timers w) (intervals w) (now w) (log w ++ [a]).

(** [remove_nth i l] drops the element at index [i] (a request that has
    resolved, a timer that has fired, an interval that was cleared). *)
Fixpoint remove_nth {A : Type} (i : nat) (l : list A) : list A :=
  match l, i with
  | [], _ => []
  | _ :: l', O => l'
  | x :: l', S i' => x :: remove_nth i' l'
  end.

Fixpoint replace_nth {A : Type} (i : nat) (y : A) (l : list A) : list A :=
  match l, i with
  | [], _ => []
  | _ :: l', O => y :: l'
  | x :: l', S i' => x :: replace_nth i' y l'
  end.

(** ** The React state setters

    A setter of a component that is not mounted changes nothing.  Setting
    [notifications] always installs a new array (the query's result, or the
    result of [filter]), so the effect that depends on [notifications] is
    scheduled. *)

Definition set_state (f : State -> State) (w : World) : World :=
  match phase w with
  | Mounted => with_st (f (st w)) w
  | _ => w
  end.

Definition setNotifications (f : list Notification -> list Notification)
           (w : World) : World :=
  match phase w with
  | Mounted =>
      with_effect_pending true
        (with_st (mkState (f (notifications (st w)))
                          (showNotification (st w))
                          (currentNotification (st w))) w)
  | _ => w
  end.

Definition setShowNotification (b : bool) : World -> World :=
  set_state (fun s => mkState (notifications s) b (currentNotification s)).

Definition setCurrentNotification (c : option Notification) : World -> World :=
  set_state (fun s => mkState (notifications s) (showNotification s) c).

(** ** The component's functions *)

(** [const duration = 3000], in milliseconds. *)
Definition duration : Z := 3000.

(** [triggerConfetti]: [animationEnd = Date.now() + duration], then
    [setInterval(..., 250)]. *)
Definition triggerConfetti (w : World) : World :=
  let animationEnd := now w + duration in
  emit (SetInterval 250)
    (with_intervals (intervals w ++ [mkInterval (now w + 250) animationEnd]) w).

(** The interval's callback.  The two [confetti] calls differ only in their
    random origin, which is not recorded. *)
Definition interval_callback (i : nat) (iv : Interval) (w : World) : World :=
  let timeLeft := animationEnd iv - now w in
  if timeLeft <=? 0 then
    emit ClearInterval (with_intervals (remove_nth i (intervals w)) w)
  else
    let particleCount := (50 * (inject_Z timeLeft / inject_Z duration))%Q in
    emit (Confetti particleCount)
      (emit (Confetti particleCount)
         (with_intervals
            (replace_nth i (mkInterval (next_fire iv + 250) (animationEnd iv))
                         (intervals w)) w)).

(** [showNextNotification], as created by the render that saw [c]. *)
Definition showNextNotification (c : State) (w : World) : World :=
  if (0 <? List.length (notifications c))%nat && negb (showNotification c) then
    triggerConfetti
      (setShowNotification true
         (setCurrentNotification (hd_error (notifications c)) w))
  else w.

(** [loadUnreadNotifications] up to its [await]. *)
Definition loadUnreadNotifications (w : World) : World :=
  emit Select (with_loads (S (loads w)) w).

(** [loadUnreadNotifications] after its [await]:
    [if (!error && data) setNotifications(data)]. *)
Definition loadUnreadNotifications_resume (r : QueryResult) (w : World) : World :=
  match error r, data r with
  | None, Some d => setNotifications (fun _ => d) w
  | _, _ => w
  end.

(** [subscribeToNotifications]: opens the channel and returns the function
    that would close it. *)
Definition subscribeToNotifications (w : World) : World * Cleanup :=
  (emit Subscribe (with_subscribed true w), CleanupUnsubscribe).

Definition run_cleanup (c : Cleanup) (w : World) : World :=
  match c with
  | CleanupUnsubscribe => emit Unsubscribe (with_subscribed false w)
  end.

(** [useEffect(() => { loadUnreadNotifications(); subscribeToNotifications(); },
    [userId])].  The body has no [return]: what [subscribeToNotifications]
    returned is dropped and React is handed nothing. *)
Definition effect_userId (w : World) : World * option Cleanup :=
  let w1 := loadUnreadNotifications w in
  let '(w2, _) := subscribeToNotifications w1 in
  (w2, None).

(** [useEffect(() => { if (notifications.length > 0 && !showNotification)
    showNextNotification(); }, [notifications])], run for the committed
    render. *)
Definition effect_notifications (w : World) : World :=
  let c := st w in
  if (0 <? List.length (notifications c))%nat && negb (showNotification c) then
    showNextNotification c w
  else w.

(** [handleClose] of the render that saw [c], up to its [await]. *)
Definition handleClose (c : State) (w : World) : World :=
  match currentNotification c with
  | Some n => emit (MarkRead (id n)) (with_rpcs (rpcs w ++ [c]) w)
  | None => w
  end.

(** [prev.filter((n) => n.id !== currentNotification.id)]. *)
Definition removeById (nid : string) (q : list Notification) : list Notification :=
  filter (fun n => negb (String.eqb (id n) nid)) q.

(** [handleClose] after its [await]; the awaited result [r] is unused. *)
Definition handleClose_resume (c : State) (r : RpcResult) (w : World) : World :=
  match currentNotification c with
  | Some n =>
      let w1 := setShowNotification false w in
      let w2 := setCurrentNotification None w1 in
      let w3 := setNotifications (removeById (id n)) w2 in
      emit (SetTimeout 500) (with_timers (timers w3 ++ [(now w3 + 500, c)]) w3)
  | None => w
  end.

(** [getAchievementIcon]. *)
Inductive Icon := Users | Award | TrendingUp | Trophy.

Definition getAchievementIcon (type : string) : Icon :=
  if String.eqb type "team_streak" then Users
  else if String.eqb type "team_personal_best" then Award
  else if String.eqb type "team_acwr_safe" then TrendingUp
  else if String.eqb type "team_goals_complete" then Trophy
  else Trophy.

(** The component's output: [null], or the one modal. *)
Record Modal := mkModal {
  modal_of : Notification;
  modal_icon : Icon;
  modal_title : string;
  modal_description : string
}.

Definition render (s : State) : option Modal :=
  if negb (showNotification s) then None
  else match currentNotification s with
       | None => None
       | Some n =>
           let achievement := team_achievements n in
           Some (mkModal n (getAchievementIcon (achievement_type achievement))
                         (title achievement) (description achievement))
       end.

(** ** The event loop

    Everything that can resume the component.  A request or a timer is
    named by its position among the pending ones. *)
Inductive Event :=
| Mount                               (* first render and its effects *)
| Unmount
| LoadDone (r : QueryResult)          (* an unread query resolves *)
| InsertEvent                         (* the channel reports an INSERT *)
| Flush                               (* React runs the pending effect *)
| Click                               (* either button of the modal *)
| RpcDone (i : nat) (r : RpcResult)   (* a mark-read rpc resolves *)
| Advance (dt : Z)                    (* time passes *)
| TimerFire (i : nat)
| IntervalFire (i : nat).

(** The first render commits [initial_state]; React then runs both effects
    in the order they were declared and keeps what they returned. *)
Definition mount (w : World) : World :=
  let w0 := with_phase Mounted w in
  let '(w1, c) := effect_userId w0 in
  let w2 := match c with
            | Some f => with_cleanups (cleanups w1 ++ [f]) w1
            | None => w1
            end in
  effect_notifications w2.

(** Unmounting runs the cleanups React was given, and nothing else. *)
Definition unmount (w : World) : World :=
  with_cleanups [] (fold_left (fun w' c => run_cleanup c w') (cleanups w)
                              (with_phase Unmounted w)).

(** One turn of the event loop.  An event that cannot happen in [w] (a click
    with no modal on screen, a timer that is not due, a response nobody
    waits for) leaves [w] as it is.  React runs the effect of a commit
    before it handles anything else that touches the component, so while
    that effect is pending such events wait. *)
Definition step (w : World) (e : Event) : World :=
  match e with
  | Mount =>
      match phase w with Fresh => mount w | _ => w end
  | Unmount =>
      match phase w with
      | Mounted => if effect_pending w then w else unmount w
      | _ => w
      end
  | LoadDone r =>
      if effect_pending w then w else
      match loads w with
      | O => w
      | S k => loadUnreadNotifications_resume r (with_loads k w)
      end
  | InsertEvent =>
      if subscribed w then loadUnreadNotifications w else w
  | Flush =>
      if effect_pending w
      then effect_notifications (with_effect_pending false w)
      else w
  | Click =>
      if effect_pending w then w else
      match phase w, render (st w) with
      | Mounted, Some _ => handleClose (st w) w
      | _, _ => w
      end
  | RpcDone i r =>
      if effect_pending w then w else
      match nth_error (rpcs w) i with
      | Some c => handleClose_resume c r (with_rpcs (remove_nth i (rpcs w)) w)
      | None => w
      end
  | Advance dt =>
      if 0 <=? dt then with_now (now w + dt) w else w
  | TimerFire i =>
      match nth_error (timers w) i with
      | Some (due, c) =>
          if due <=? now w
          then showNextNotification c (with_timers (remove_nth i (timers w)) w)
          else w
      | None => w
      end
  | IntervalFire i =>
      match nth_error (intervals w) i with
      | Some iv =>
          if next_fire iv <=? now w then interval_callback i iv w else w
      | None => w
      end
  end.

Definition run (w : World) (evs : list Event) : World := fold_left step evs w.

(** ** Observations *)

(** The notification on screen. *)
Definition showing (w : World) : option Notification :=
  option_map modal_of (render (st w)).

(** The notification that a turn from [w] to [w'] puts on screen: the turn
    is Idle -> Showing. *)
Definition presented (w w' : World) : list Notification :=
  match showing w, showing w' with
  | None, Some n => [n]
  | _, _ => []
  end.

(** The notifications put on screen while [evs] are handled, in order. *)
Fixpoint shown_trace (w : World) (evs : list Event) : list Notification :=
  match evs with
  | [] => []
  | e :: evs' => presented w (step w e) ++ shown_trace (step w e) evs'
  end.

Definition is_SetInterval (a : Action) : bool :=
  match a with SetInterval _ => true | _ => false end.

(** How often [triggerConfetti] has started an animation. *)
Definition confetti_started (w : World) : nat :=
  List.length (filter is_SetInterval (log w)).

Definition is_ConsoleError (a : Action) : bool :=
  match a with ConsoleError _ => true | _ => false end.

(** The diagnostics written so far. *)
Definition diagnostics (w : World) : list Action :=
  filter is_ConsoleError (log w).

(** The list of notifications on screen. *)
Definition on_screen (w : World) : list Notification :=
  match showing w with
  | Some n => [n]
  | None => []
  end.

(** How often a notification with id [nid] occurs in a trace. *)
Definition occurrences (nid : string) (l : list Notification) : nat :=
  List.length (filter (fun m => String.eqb (id m) nid) l).

(** ** The store's side of the unread query *)

Fixpoint insert_by_created_at (n : Notification) (l : list Notification)
  : list Notification :=
  match l with
  | [] => [n]
  | m :: l' =>
      if created_at n <=? created_at m then n :: l
      else m :: insert_by_created_at n l'
  end.

Fixpoint order_by_created_at (l : list Notification) : list Notification :=
  match l with
  | [] => []
  | n :: l' => insert_by_created_at n (order_by_created_at l')
  end.

(** The rows the query selects: [.eq('user_id', userId)] and
    [.eq('is_read', false)]. *)
Definition unread_rows (userId : string) (table : list Notification)
  : list Notification :=
  filter (fun n => String.eqb (user_id n) userId && negb (is_read n)) table.

(** Modelled from the spec: the notification table lives in the backend and
    is not part of the source.  This is the answer the store gives to the
    query [loadUnreadNotifications] builds: the unread rows of the user,
    [.order('created_at', { ascending: true })], and no error. *)
Definition unread_query (userId : string) (table : list Notification)
  : QueryResult :=
  mkQueryResult (Some (order_by_created_at (unread_rows userId table))) None.

Definition earlier (a b : Notification) : Prop := created_at a < created_at b.

Definition not_later (a b : Notification) : Prop :=
  created_at a <= created_at b.

(** A load that answers [l]; a load that fails. *)
Definition loaded (l : list Notification) : QueryResult :=
  mkQueryResult (Some l) None.

Definition failed (msg : string) : QueryResult :=
  mkQueryResult None (Some msg).

(** ** Schedules *)

(** Events of the clock and of the timers. *)
Definition is_timing (e : Event) : bool :=
  match e with
  | Advance _ | TimerFire _ | IntervalFire _ => true
  | _ => false
  end.

Definition is_load (e : Event) : bool :=
  match e with
  | LoadDone _ => true
  | _ => false
  end.

(** A schedule with the clock and timer events taken out. *)
Definition core (evs : list Event) : list Event :=
  filter (fun e => negb (is_timing e)) evs.

(** One dismissal that runs to completion: the click, the mark-read call
    resolving without failure, the effect of the resulting commit. *)
Definition dismissal : list Event := [Click; RpcDone 0 RpcOk; Flush].

Definition dismissals (k : nat) : list Event :=
  List.concat (repeat dismissal k).

(** Mount, the initial load answering [l], then every notification of [l]
    dismissed in turn. *)
Definition session (l : list Notification) : list Event :=
  [Mount; LoadDone (loaded l); Flush] ++ dismissals (List.length l).

(** The part of the world the timers cannot touch. *)
Definition coreof (w : World) : State * Phase * bool * list State * nat :=
  (st w, phase w, effect_pending w, rpcs w, loads w).

(** ** Invariant and turns *)

(** What holds in every world the component can be in.  A [handleClose]
    can only be called from the modal, so the render it closed over was
    showing a notification; the settling timer inherits that render. *)
Record Inv (w : World) : Prop := mkInv {
  inv_rpcs : Forall (fun c => showNotification c = true) (rpcs w);
  inv_timers : Forall (fun t => showNotification (snd t) = true) (timers w);
  inv_flags :
    showNotification (st w) = true <-> currentNotification (st w) <> None;
  inv_pending : effect_pending w = true -> phase w = Mounted;
  inv_fresh : phase w = Fresh -> st w = initial_state;
  inv_cleanups : cleanups w = [];
  inv_subscribed : phase w <> Fresh -> subscribed w = true
}.

(** A turn leaves the screen alone, or goes Idle -> Showing (showing the
    head of the queue and starting one animation), or goes to Idle. *)
Inductive turn (w w' : World) (e : Event) : Prop :=
| turn_keep :
    showing w' = showing w ->
    confetti_started w' = confetti_started w ->
    turn w w' e
| turn_show (n : Notification) :
    showing w = None ->
    showing w' = Some n ->
    hd_error (notifications (st w')) = Some n ->
    confetti_started w' = S (confetti_started w) ->
    e = Flush ->
    turn w w' e
| turn_hide (i : nat) (r : RpcResult) :
    showing w' = None ->
    confetti_started w' = confetti_started w ->
    e = RpcDone i r ->
    turn w w' e.

(** The ids in [T] cover the notification on screen and the notifications
    that suspended [handleClose] calls are about to acknowledge. *)
Definition seen (T : list Notification) (w : World) : Prop :=
  (forall n, showing w = Some n -> In (id n) (map id T))
  /\ (forall c n, In c (rpcs w) -> currentNotification c = Some n ->
                  In (id n) (map id T)).

(** ** Sample data *)

Definition sample_achievement : TeamAchievement :=
  mkAchievement "ach-1" "team-1" "team_streak" "7 day streak"
                "Everyone trained for a week" "2024-05-01" "{}" false.

Definition sample (nid : string) (t : Z) : Notification :=
  mkNotification nid "team-1" "user-1" "ach-1" false t sample_achievement.

Definition sample_A : Notification := sample "A" 10.

Definition sample_B : Notification := sample "B" 20.

Definition sample_C : Notification := sample "C" 30.

(** [A] is on screen, [B] waits. *)
Definition sample_showing : list Event :=
  [Mount; LoadDone (loaded [sample_A; sample_B]); Flush].

(** A session in which the modal is clicked twice before the first
    mark-read call has resolved. *)
Definition double_click_session : list Event :=
  [Mount; LoadDone (loaded [sample_A; sample_B]); Flush;
   Click; Click;
   RpcDone 0 RpcOk; Flush;
   RpcDone 0 RpcOk; Flush;
   Click; RpcDone 0 RpcOk; Flush].

(** What follows [sample_showing] in [double_click_session]. *)
Definition double_click_rest : list Event :=
  [Click; Click;
   RpcDone 0 RpcOk; Flush;
   RpcDone 0 RpcOk; Flush;
   Click; RpcDone 0 RpcOk; Flush].

(** A session over [A; B; C] with the clock and the timers interleaved. *)
Definition sample_session : list Event :=
  [Mount; Advance 40; LoadDone (loaded [sample_A; sample_B; sample_C]); Flush;
   Advance 250; IntervalFire 0;
   Click; Advance 80; RpcDone 0 RpcOk; Flush; Advance 500; TimerFire 0;
   Click; Advance 80; RpcDone 0 RpcOk; Flush;
   Click; Advance 80; RpcDone 0 RpcOk; Flush; Advance 500; TimerFire 0].

(** A table in no particular order: three unread rows of [user-1], a row
    already read, and a row of somebody else. *)
Definition sample_table : list Notification :=
  [sample_C;
   mkNotification "R" "team-1" "user-1" "ach-1" true 5 sample_achievement;
   sample_A;
   mkNotification "O" "team-1" "user-2" "ach-1" false 15 sample_achievement;
   sample_B].

Definition sample_table_session : list Event :=
  [Mount; LoadDone (unread_query "user-1" sample_table); Flush;
   Click; RpcDone 0 RpcOk; Flush; Advance 500; TimerFire 0;
   Click; RpcDone 0 RpcOk; Flush;
   Click; RpcDone 0 RpcOk; Flush].

(** The modal of [A] has been clicked and the mark-read call is in flight. *)
Definition sample_dismissing : World :=
  run init [Mount; LoadDone (loaded [sample_A; sample_B]); Flush; Click].

(** A load that fails right after mount. *)
Definition sample_failed_load : World :=
  step (run init [Mount]) (LoadDone (failed "network error")).

(** [A] was dismissed, [B] is on screen, the settling timer of the
    dismissal is pending, both animations are running, and the component is
    unmounted. *)
Definition sample_torn_down : World :=
  run init [Mount; LoadDone (loaded [sample_A; sample_B]); Flush;
            Click; Advance 100; RpcDone 0 RpcOk; Flush; Unmount].

(** Unmounted during the animation of [A]; three seconds later. *)
Definition sample_after_animation : list Event :=
  [Mount; LoadDone (loaded [sample_A]); Flush; Unmount; Advance 3000].

(** ** The confetti animation and the calls of a turn *)

Definition is_Confetti (a : Action) : bool :=
  match a with Confetti _ => true | _ => false end.

(** How often [confetti] has been called. *)
Definition confetti_calls (w : World) : nat :=
  List.length (filter is_Confetti (log w)).

Definition is_ClearInterval (a : Action) : bool :=
  match a with ClearInterval => true | _ => false end.

(** How many animation intervals have been cleared. *)
Definition cleared (w : World) : nat :=
  List.length (filter is_ClearInterval (log w)).

(** The firings of [iv] that can still call [confetti]: one per 250 ms step
    of [next_fire] below [animationEnd]. *)
Definition remaining (iv : Interval) : Z :=
  Z.max 0 ((animationEnd iv - next_fire iv + 249) / 250).

Fixpoint budget (ivs : list Interval) : Z :=
  match ivs with
  | [] => 0
  | iv :: ivs' => remaining iv + budget ivs'
  end.

(** A [confetti] call asks for a positive number of particles, at most
    50 * 2750 / 3000. *)
Definition particle_ok (a : Action) : Prop :=
  match a with
  | Confetti q => (0 < q /\ q <= 275 # 6)%Q
  | _ => True
  end.

(** What the animations have done so far, as far as the log and the running
    intervals show. *)
Record Anim (lg : list Action) (ivs : list Interval) : Prop := mkAnim {
  anim_budget :
    Z.of_nat (List.length (filter is_Confetti lg)) + 2 * budget ivs
    <= 22 * Z.of_nat (List.length (filter is_SetInterval lg));
  anim_count :
    (List.length ivs + List.length (filter is_ClearInterval lg)
     = List.length (filter is_SetInterval lg))%nat;
  anim_window :
    Forall (fun iv => animationEnd iv - 2750 <= next_fire iv) ivs;
  anim_particles : Forall particle_ok lg
}.

(** The calls a turn on event [e] from world [w] can make. *)
Definition may_emit (w : World) (e : Event) (a : Action) : Prop :=
  match a with
  | Select => (e = Mount /\ phase w = Fresh) \/ e = InsertEvent
  | Subscribe => e = Mount /\ phase w = Fresh
  | Unsubscribe => False
  | MarkRead nid =>
      e = Click /\ phase w = Mounted
      /\ exists n, showing w = Some n /\ id n = nid
  | SetTimeout d => d = 500 /\ exists i r, e = RpcDone i r
  | SetInterval p => p = 250 /\ e = Flush /\ phase w = Mounted
  | ClearInterval => exists i, e = IntervalFire i
  | Confetti _ => exists i, e = IntervalFire i
  | ConsoleError _ => False
  end.

(** The calls that can still happen once the component is unmounted. *)
Definition after_unmount (a : Action) : Prop :=
  match a with
  | Select | SetTimeout _ | Confetti _ | ClearInterval => True
  | _ => False
  end.

(** [A] was dismissed while the mark-read call failed; a live insert then
    triggered a reload. *)
Definition sample_resurrection : list Event :=
  [Mount; LoadDone (loaded [sample_A]); Flush;
   Click; RpcDone 0 (RpcError "offline"); Flush; InsertEvent].

(** * The environment check ([check-env.mjs], first document) *)

Module CheckEnv.

(** A JavaScript string, as its sequence of UTF-16 code units. *)
Definition jsstring : Type := list N.

(** The code units of a literal made of ASCII characters. *)
Definition units (s : string) : jsstring :=
  map Ascii.N_of_ascii (list_ascii_of_string s).

Definition requiredEnvVars : list string :=
  ["VITE_SUPABASE_URL"; "VITE_SUPABASE_ANON_KEY"]%string.

(** The characters after which [^] matches under the [m] flag: LF, CR, LS
    and PS. *)
Definition isLineTerminator (c : N) : bool :=
  ((c =? 10) || (c =? 13) || (c =? 8232) || (c =? 8233))%N.

(** The literal [p] matches at the beginning of [s]. *)
Fixpoint starts_with (p s : jsstring) : bool :=
  match p, s with
  | [], _ => true
  | _ :: _, [] => false
  | a :: p', b :: s' => (a =? b)%N && starts_with p' s'
  end.

(** [/^p/m.test(s)] for a literal [p], scanning [s] from the left; [bol]
    tells whether [^] matches at the current position. *)
Fixpoint test_from (bol : bool) (p s : jsstring) : bool :=
  (bol && starts_with p s)
  || match s with
     | [] => false
     | c :: s' => test_from (isLineTerminator c) p s'
     end.

(** [new RegExp(`^${varName}=`, 'm').test(envContent)], for a [varName]
    without regular expression metacharacters (the required names are made
    of capitals and underscores). *)
Definition regex_test (varName : string) (envContent : jsstring) : bool :=
  test_from true (units varName ++ [61%N]) envContent.

(** What [readFileSync(envPath, 'utf-8')] does: it returns the decoded
    content or throws an error that may carry a [code]. *)
Inductive ReadResult :=
| ReadOk (envContent : jsstring)
| ReadFailed (code : option string).

Inductive Stream := Stdout | Stderr.

(** One [console.log] or [console.error] call: the stream, the SGR colour
    of its format string, and the text. *)
Record Line := mkLine {
  stream : Stream;
  colour : Z;
  text : string
}.

(** How the script ends: it runs to its end, [process.exit(code)], or the
    error is thrown again. *)
Inductive Exit :=
| Completed
| ExitCode (code : Z)
| Rethrown (code : option string).

Record Outcome := mkOutcome {
  output : list Line;
  exit : Exit
}.

Definition missingVars (envContent : jsstring) : list string :=
  filter (fun varName => negb (regex_test varName envContent)) requiredEnvVars.

(** [`   - ${varName}`], in yellow on stderr. *)
Definition report (varName : string) : Line :=
  mkLine Stderr 33 ("   - " ++ varName)%string.

Definition newline : string := String (Ascii.ascii_of_nat 10) EmptyString.

(** The script. *)
Definition check_env (r : ReadResult) : Outcome :=
  match r with
  | ReadOk envContent =>
      if (0 <? List.length (missingVars envContent))%nat then
        mkOutcome
          ([mkLine Stderr 31 "❌ Missing required environment variables:"]
           ++ map report (missingVars envContent)
           ++ [mkLine Stderr 36
                 (newline ++ "Please check your .env file and ensure all required variables are set.")%string])
          (ExitCode 1)
      else
        mkOutcome
          [mkLine Stdout 32 "✓ Environment variables validated successfully"]
          Completed
  | ReadFailed code =>
      if match code with
         | Some c => String.eqb c "ENOENT"
         | None => false
         end
      then
        mkOutcome
          [mkLine Stderr 31 "❌ .env file not found";
           mkLine Stderr 36 "Please create a .env file based on .env.example"]
          (ExitCode 1)
      else mkOutcome [] (Rethrown code)
  end.

(** The lines of a string: the stretches between line terminators. *)
Fixpoint split_lines (s : jsstring) : list jsstring :=
  match s with
  | [] => [[]]
  | c :: s' =>
      if isLineTerminator c then [] :: split_lines s'
      else match split_lines s' with
           | l :: ls => (c :: l) :: ls
           | [] => [[c]]
           end
  end.

(** Some line of [envContent] begins with [varName=]. *)
Definition assigned (varName : string) (envContent : jsstring) : Prop :=
  exists l, In l (split_lines envContent)
            /\ starts_with (units varName ++ [61%N]) l = true.

Definition no_terminator (p : jsstring) : Prop :=
  Forall (fun c => isLineTerminator c = false) p.

(** A file with a comment, an indented assignment, the URL with an empty
    value, and the key after a CR LF. *)
Definition sample_env : jsstring :=
  units "# local settings" ++ [10%N]
  ++ units "  VITE_SUPABASE_ANON_KEY=indented" ++ [10%N]
  ++ units "VITE_SUPABASE_URL=" ++ [13%N; 10%N]
  ++ units "VITE_SUPABASE_ANON_KEY=abc".

End CheckEnv.

(** * The members table ([OrganizationMembersManagement], [part_000]) *)

Module Members.

Inductive Role := Admin | Member.

(** The joined [users] row of a membership; either field may be null. *)
Record UserRef := mkUserRef {
  email : option string;
  full_name : option string
}.

(** A row as the store answers it; the join may come back null. *)
Record MemberRow := mkMemberRow {
  row_id : string;
  row_user_id : string;
  row_organization_id : string;
  row_role : Role;
  row_joined_at : string;
  users : option UserRef
}.

(** [interface OrganizationMember]. *)
Record OrganizationMember := mkMember {
  id : string;
  user_id : string;
  organization_id : string;
  role : Role;
  joined_at : string;
  user_email : option string;
  user_name : option string
}.

(** The body of [(data || []).map(member => ...)]; [users?.email] of a
    missing join is undefined. *)
Definition formatMember (member : MemberRow) : OrganizationMember :=
  mkMember (row_id member) (row_user_id member) (row_organization_id member)
           (row_role member) (row_joined_at member)
           (match users member with Some u => email u | None => None end)
           (match users member with Some u => full_name u | None => None end).

(** The five [useState] cells. *)
Record State := mkState {
  members : list OrganizationMember;
  loading : bool;
  searchQuery : string;
  error : option string;
  success : option string
}.

(** [useState([])], [useState(true)], [useState('')], [useState(null)],
    [useState(null)]. *)
Definition initial_state : State := mkState [] true "" None None.

(** What the awaited select resolves to. *)
Record FetchResult := mkFetchResult {
  data : option (list MemberRow);
  fetchError : option string
}.

(** The calls the component makes on its collaborators. *)
Inductive Action :=
| Select                                   (* the members query *)
| Update (memberId : string) (newRole : Role)
| Delete (memberId : string)
| Confirm                                  (* the confirm dialog *)
| ConsoleError (label : string)
| SetTimeout (delay : Z).

Inductive Phase := Fresh | Mounted | Unmounted.

Record World := mkWorld {
  st : State;
  phase : Phase;
  fetches : nat;             (* selects in flight *)
  updates : nat;             (* updates in flight *)
  deletes : nat;             (* deletes in flight *)
  timers : list Z;           (* due times of [setSuccess(null)] *)
  now : Z;
  log : list Action
}.

Definition init : World := mkWorld initial_state Fresh 0 0 0 [] 0 [].

Definition with_st (s : State) (w : World) : World :=
  mkWorld s (phase w) (fetches w) (updates w) (deletes w) (timers w) (now w)
          (log w).

Definition emit (a : Action) (w : World) : World :=
  mkWorld (st w) (phase w) (fetches w) (updates w) (deletes w) (timers w)
          (now w) (log w ++ [a]).

(** A setter of a component that is not mounted changes nothing. *)
Definition set_state (f : State -> State) (w : World) : World :=
  match phase w with
  | Mounted => with_st (f (st w)) w
  | _ => w
  end.

Definition setMembers (l : list OrganizationMember) : World -> World :=
  set_state (fun s => mkState l (loading s) (searchQuery s) (error s) (success s)).

Definition setLoading (b : bool) : World -> World :=
  set_state (fun s => mkState (members s) b (searchQuery s) (error s) (success s)).

Definition setSearchQuery (q : string) : World -> World :=
  set_state (fun s => mkState (members s) (loading s) q (error s) (success s)).

Definition setError (e : option string) : World -> World :=
  set_state (fun s => mkState (members s) (loading s) (searchQuery s) e (success s)).

Definition setSuccess (m : option string) : World -> World :=
  set_state (fun s => mkState (members s) (loading s) (searchQuery s) (error s) m).

Definition msg_fetch_failed : string := "メンバーの読み込みに失敗しました".
Definition msg_update_failed : string := "ロールの更新に失敗しました".
Definition msg_delete_failed : string := "メンバーの削除に失敗しました".
Definition msg_role_updated : string := "ロールを更新しました".
Definition msg_member_removed : string := "メンバーを削除しました".

(** [fetchMembers] up to its [await]. *)
Definition fetchMembers (w : World) : World :=
  let w1 := setLoading true w in
  let w2 := setError None w1 in
  emit Select (mkWorld (st w2) (phase w2) (S (fetches w2)) (updates w2)
                       (deletes w2) (timers w2) (now w2) (log w2)).

(** [fetchMembers] after its [await]: the [try] body, the [catch] and the
    [finally]. *)
Definition fetchMembers_resume (r : FetchResult) (w : World) : World :=
  let w1 :=
    match fetchError r with
    | Some _ =>
        setError (Some msg_fetch_failed)
                 (emit (ConsoleError "Error fetching members:") w)
    | None =>
        let formattedMembers :=
          map formatMember (match data r with Some d => d | None => [] end) in
        setMembers formattedMembers w
    end in
  setLoading false w1.

(** [setTimeout(() => setSuccess(null), 3000)]. *)
Definition clear_success_later (w : World) : World :=
  emit (SetTimeout 3000)
       (mkWorld (st w) (phase w) (fetches w) (updates w) (deletes w)
                (timers w ++ [now w + 3000]) (now w) (log w)).

(** [updateMemberRole] up to its [await]. *)
Definition updateMemberRole (memberId : string) (newRole : Role) (w : World)
  : World :=
  let w1 := setError None w in
  emit (Update memberId newRole)
       (mkWorld (st w1) (phase w1) (fetches w1) (S (updates w1)) (deletes w1)
                (timers w1) (now w1) (log w1)).

(** [updateMemberRole] after its [await]. *)
Definition updateMemberRole_resume (updateError : option string) (w : World)
  : World :=
  match updateError with
  | Some _ =>
      setError (Some msg_update_failed)
               (emit (ConsoleError "Error updating role:") w)
  | None =>
      clear_success_later (fetchMembers (setSuccess (Some msg_role_updated) w))
  end.

(** [removeMember] up to its [await]; [confirmed] is what [confirm]
    returned. *)
Definition removeMember (memberId : string) (confirmed : bool) (w : World)
  : World :=
  let w0 := emit Confirm w in
  if negb confirmed then w0
  else
    let w1 := setError None w0 in
    emit (Delete memberId)
         (mkWorld (st w1) (phase w1) (fetches w1) (updates w1) (S (deletes w1))
                  (timers w1) (now w1) (log w1)).

(** [removeMember] after its [await]. *)
Definition removeMember_resume (deleteError : option string) (w : World)
  : World :=
  match deleteError with
  | Some _ =>
      setError (Some msg_delete_failed)
               (emit (ConsoleError "Error removing member:") w)
  | None =>
      clear_success_later
        (fetchMembers (setSuccess (Some msg_member_removed) w))
  end.

(** [String.prototype.includes]. *)
Fixpoint includes (s sub : string) : bool :=
  if String.prefix sub s then true
  else match s with
       | EmptyString => false
       | String _ s' => includes s' sub
       end.

Section Search.

(** [String.prototype.toLowerCase]. *)
Variable toLowerCase : string -> string.

(** [field?.toLowerCase().includes(searchQuery.toLowerCase())]; undefined
    for a missing field, which [filter] takes as false. *)
Definition field_matches (field : option string) (q : string) : bool :=
  match field with
  | Some s => includes (toLowerCase s) (toLowerCase q)
  | None => false
  end.

Definition filteredMembers (s : State) : list OrganizationMember :=
  filter (fun member =>
            field_matches (user_email member) (searchQuery s)
            || field_matches (user_name member) (searchQuery s))
         (members s).

(** The rows of the table: none while the spinner is shown. *)
Definition rows (w : World) : list OrganizationMember :=
  match phase w with
  | Mounted => if loading (st w) then [] else filteredMembers (st w)
  | _ => []
  end.

Definition has_row (memberId : string) (w : World) : bool :=
  existsb (fun member => String.eqb (id member) memberId) (rows w).

Inductive Event :=
| Mount
| Unmount
| FetchDone (r : FetchResult)
| Type_ (q : string)                          (* the search box *)
| ChangeRole (memberId : string) (newRole : Role)
| UpdateDone (updateError : option string)
| ClickRemove (memberId : string) (confirmed : bool)
| DeleteDone (deleteError : option string)
| Advance (dt : Z)
| TimerFire (i : nat).

(** One turn of the event loop; an event that cannot happen leaves the
    world as it is. *)
Definition step (w : World) (e : Event) : World :=
  match e with
  | Mount =>
      match phase w with
      | Fresh => fetchMembers (mkWorld (st w) Mounted (fetches w) (updates w)
                                       (deletes w) (timers w) (now w) (log w))
      | _ => w
      end
  | Unmount =>
      match phase w with
      | Mounted => mkWorld (st w) Unmounted (fetches w) (updates w) (deletes w)
                           (timers w) (now w) (log w)
      | _ => w
      end
  | FetchDone r =>
      match fetches w with
      | O => w
      | S k => fetchMembers_resume r
                 (mkWorld (st w) (phase w) k (updates w) (deletes w)
                          (timers w) (now w) (log w))
      end
  | Type_ q =>
      match phase w with
      | Mounted => if loading (st w) then w else setSearchQuery q w
      | _ => w
      end
  | ChangeRole memberId newRole =>
      if has_row memberId w then updateMemberRole memberId newRole w else w
  | UpdateDone updateError =>
      match updates w with
      | O => w
      | S k => updateMemberRole_resume updateError
                 (mkWorld (st w) (phase w) (fetches w) k (deletes w)
                          (timers w) (now w) (log w))
      end
  | ClickRemove memberId confirmed =>
      if has_row memberId w then removeMember memberId confirmed w else w
  | DeleteDone deleteError =>
      match deletes w with
      | O => w
      | S k => removeMember_resume deleteError
                 (mkWorld (st w) (phase w) (fetches w) (updates w) k
                          (timers w) (now w) (log w))
      end
  | Advance dt =>
      if 0 <=? dt
      then mkWorld (st w) (phase w) (fetches w) (updates w) (deletes w)
                   (timers w) (now w + dt) (log w)
      else w
  | TimerFire i =>
      match nth_error (timers w) i with
      | Some due =>
          if due <=? now w
          then setSuccess None
                 (mkWorld (st w) (phase w) (fetches w) (updates w) (deletes w)
                          (remove_nth i (timers w)) (now w) (log w))
          else w
      | None => w
      end
  end.

Definition run (w : World) (evs : list Event) : World := fold_left step evs w.

(** What lets a turn on [e] from [w] send a request to the store. *)
Definition caused (w : World) (e : Event) (a : Action) : Prop :=
  match a with
  | Update memberId newRole =>
      e = ChangeRole memberId newRole /\ has_row memberId w = true
  | Delete memberId =>
      e = ClickRemove memberId true /\ has_row memberId w = true
  | _ => True
  end.

End Search.

(** The spinner is shown only while a select is in flight. *)
Definition spinner_ok (w : World) : Prop :=
  phase w = Mounted -> loading (st w) = true -> (0 < fetches w)%nat.

Definition is_ConsoleError (a : Action) : bool :=
  match a with ConsoleError _ => true | _ => false end.

(** An error banner stands for a failure that was written to the console,
    and carries one of the three fixed messages. *)
Definition error_reported (w : World) : Prop :=
  forall m, error (st w) = Some m ->
            (m = msg_fetch_failed \/ m = msg_update_failed
             \/ m = msg_delete_failed)
            /\ existsb is_ConsoleError (log w) = true.

(** A member has an e-mail address or a name. *)
Definition identified (member : OrganizationMember) : bool :=
  match user_email member, user_name member with
  | None, None => false
  | _, _ => true
  end.


(** ASCII lower-casing, a stand-in for [toLowerCase] in examples. *)
Definition ascii_lower (c : Ascii.ascii) : Ascii.ascii :=
  let n := Ascii.nat_of_ascii c in
  if ((65 <=? n) && (n <=? 90))%nat then Ascii.ascii_of_nat (n + 32) else c.

Fixpoint lower (s : string) : string :=
  match s with
  | EmptyString => EmptyString
  | String c s' => String (ascii_lower c) (lower s')
  end.

Definition sample_rows : list MemberRow :=
  [mkMemberRow "m1" "u1" "org" Admin "2024-01-01"
               (Some (mkUserRef (Some "Ann@Example.com"%string)
                                (Some "Ann"%string)));
   mkMemberRow "m2" "u2" "org" Member "2024-02-01" None;
   mkMemberRow "m3" "u3" "org" Member "2024-03-01"
               (Some (mkUserRef None (Some "Bob"%string)))].

End Members.

(** * Properties *)

(** ** Lists of pending callbacks *)

Lemma Forall_remove_nth (A : Type) (P : A -> Prop) (l : list A) :
  Forall P l -> forall i, Forall P (remove_nth i l).
Proof.
  induction 1 as [|x l Hx Hl IH]; intros [|i]; simpl; auto.
Qed.

Lemma removeById_idempotent (nid : string) (q : list Notification) :
  removeById nid (removeById nid q) = removeById nid q.
Proof.
  unfold removeById. induction q as [|n q IH]; simpl; auto.
  destruct (negb (id n =? nid)%string) eqn:E; simpl; rewrite ?E, IH; auto.
Qed.

Lemma removeById_In (nid : string) (q : list Notification) (n : Notification) :
  In n (removeById nid q) <-> In n q /\ id n <> nid.
Proof.
  unfold removeById. rewrite filter_In, negb_true_iff.
  split; intros [H1 H2]; split; auto.
  - intro E. apply String.eqb_eq in E. congruence.
  - destruct (String.eqb_spec (id n) nid); congruence.
Qed.

(** ** The stale closure of the settling timer

    [showNextNotification] tests the [notifications] and [showNotification]
    of the render that created it.  Created by a render that was showing a
    notification, it does nothing, whatever the state is by the time it
    runs. *)

Lemma showNextNotification_stale (c : State) (w : World) :
  showNotification c = true -> showNextNotification c w = w.
Proof.
  intros H. unfold showNextNotification. rewrite H, andb_false_r. reflexivity.
Qed.

(** ** Invariant of the event loop *)

Ltac inv_tac :=
  constructor; simpl; auto; try congruence;
  match goal with
  | I : Inv _ |- _ =>
      try solve [ apply (inv_subscribed _ I) | apply (inv_fresh _ I)
                | apply (inv_pending _ I) | apply (inv_flags _ I) ]
  | _ => idtac
  end.

Ltac nodup_tac :=
  repeat (constructor; [simpl; intuition discriminate|]); constructor.

Lemma Inv_init : Inv init.
Proof.
  constructor; simpl; auto; try congruence.
  split; intros; congruence.
Qed.

Lemma render_Some_show (s : State) (m : Modal) :
  render s = Some m ->
  showNotification s = true /\ currentNotification s = Some (modal_of m).
Proof.
  unfold render. destruct (showNotification s); simpl; try discriminate.
  destruct (currentNotification s); try discriminate.
  intros H; inversion H; subst; simpl; auto.
Qed.

Lemma Inv_effect_notifications (w : World) :
  Inv w -> Inv (effect_notifications w).
Proof.
  intros [H1 H2 H3 H4 H5 H6 H7].
  unfold effect_notifications, showNextNotification.
  destruct ((0 <? List.length (notifications (st w)))%nat
            && negb (showNotification (st w))) eqn:G; [|constructor; auto].
  apply andb_true_iff in G. destruct G as [Gl Gs].
  apply Nat.ltb_lt in Gl.
  unfold triggerConfetti, setShowNotification, setCurrentNotification, set_state.
  destruct (phase w) eqn:P; simpl; rewrite ?P; simpl;
    constructor; simpl; rewrite ?P; auto; try congruence.
  destruct (notifications (st w)); simpl in *; [lia|].
  split; intros; congruence.
Qed.

Lemma Inv_step (w : World) (e : Event) : Inv w -> Inv (step w e).
Proof.
  intros I. pose proof I as [H1 H2 H3 H4 H5 H6 H7].
  destruct e; simpl.
  - (* Mount *)
    destruct (phase w) eqn:P; auto.
    unfold mount, effect_userId, subscribeToNotifications,
      loadUnreadNotifications. cbv zeta. simpl.
    apply Inv_effect_notifications.
    constructor; simpl; auto; try congruence.
  - (* Unmount *)
    destruct (phase w) eqn:P; auto.
    destruct (effect_pending w) eqn:E; auto.
    unfold unmount. rewrite H6. simpl.
    constructor; simpl; auto; try congruence.
    intros _. apply H7. congruence.
  - (* LoadDone *)
    destruct (effect_pending w) eqn:E; auto.
    destruct (loads w) eqn:L; auto.
    unfold loadUnreadNotifications_resume.
    destruct (error r); [inv_tac|].
    destruct (data r); [|inv_tac].
    unfold setNotifications. simpl.
    destruct (phase w) eqn:P; constructor; simpl; rewrite ?P; auto;
      try congruence.
  - (* InsertEvent *)
    destruct (subscribed w) eqn:S; auto.
    unfold loadUnreadNotifications. inv_tac.
  - (* Flush *)
    destruct (effect_pending w) eqn:E; auto.
    apply Inv_effect_notifications. inv_tac.
  - (* Click *)
    destruct (effect_pending w) eqn:E; auto.
    destruct (phase w) eqn:P; auto.
    destruct (render (st w)) as [m|] eqn:R; auto.
    apply render_Some_show in R. destruct R as [Rs Rc].
    unfold handleClose. rewrite Rc.
    inv_tac.
    apply Forall_app; split; auto.
  - (* RpcDone *)
    destruct (effect_pending w) eqn:E; auto.
    destruct (nth_error (rpcs w) i) as [c|] eqn:N; auto.
    assert (Hc : showNotification c = true).
    { apply nth_error_In in N. rewrite Forall_forall in H1. auto. }
    unfold handleClose_resume.
    destruct (currentNotification c) as [n|];
      [|inv_tac; auto using Forall_remove_nth].
    unfold setNotifications, setShowNotification, setCurrentNotification,
      set_state. simpl.
    destruct (phase w) eqn:P; simpl; rewrite ?P; simpl; rewrite ?P; simpl;
      constructor; simpl; rewrite ?P;
      auto using Forall_remove_nth; try congruence;
      try (apply Forall_app; split; auto);
      try (split; intros; congruence).
  - (* Advance *)
    destruct (0 <=? dt); auto. inv_tac.
  - (* TimerFire *)
    destruct (nth_error (timers w) i) as [[due c]|] eqn:N; auto.
    destruct (due <=? now w); auto.
    assert (Hc : showNotification c = true).
    { apply nth_error_In in N. rewrite Forall_forall in H2.
      apply (H2 (due, c)); auto. }
    rewrite showNextNotification_stale by auto.
    inv_tac; auto using Forall_remove_nth.
  - (* IntervalFire *)
    destruct (nth_error (intervals w) i) as [iv|]; auto.
    destruct (next_fire iv <=? now w); auto.
    unfold interval_callback.
    destruct (animationEnd iv - now w <=? 0); inv_tac.
Qed.

Lemma Inv_run (evs : list Event) (w : World) : Inv w -> Inv (run w evs).
Proof.
  revert w. induction evs as [|e evs IH]; intros w I; simpl; auto.
  apply IH, Inv_step, I.
Qed.

Lemma run_app (w : World) (evs1 evs2 : list Event) :
  run w (evs1 ++ evs2) = run (run w evs1) evs2.
Proof. unfold run. apply fold_left_app. Qed.

(** ** What one turn of the event loop does to the screen *)

Lemma confetti_started_emit (a : Action) (w : World) :
  confetti_started (emit a w)
  = (confetti_started w + if is_SetInterval a then 1 else 0)%nat.
Proof.
  unfold confetti_started, emit; simpl.
  rewrite filter_app, length_app; simpl.
  destruct (is_SetInterval a); reflexivity.
Qed.

Lemma showing_idle (w : World) :
  showNotification (st w) = false -> showing w = None.
Proof. unfold showing, render. intros ->. reflexivity. Qed.

Lemma effect_notifications_turn (w : World) :
  phase w = Mounted ->
  turn w (effect_notifications w) Flush
  /\ log (effect_notifications w) = log w
     \/ exists n, showing w = None
          /\ hd_error (notifications (st w)) = Some n
          /\ st (effect_notifications w)
             = mkState (notifications (st w)) true (Some n)
          /\ log (effect_notifications w) = log w ++ [SetInterval 250].
Proof.
  intros P. unfold effect_notifications, showNextNotification.
  destruct ((0 <? List.length (notifications (st w)))%nat
            && negb (showNotification (st w))) eqn:G.
  - right. apply andb_true_iff in G. destruct G as [Gl Gs].
    apply Nat.ltb_lt in Gl. apply negb_true_iff in Gs.
    destruct (notifications (st w)) as [|n q] eqn:Q; simpl in Gl; [lia|].
    exists n. split; [apply showing_idle; auto|]. split; [reflexivity|].
    unfold triggerConfetti, setShowNotification, setCurrentNotification,
      set_state. simpl. rewrite P. simpl. rewrite P. simpl.
    rewrite Q. auto.
  - left. split; [apply turn_keep|]; reflexivity.
Qed.

Lemma step_turn (w : World) (e : Event) : Inv w -> turn w (step w e) e.
Proof.
  intros I. pose proof I as [H1 H2 H3 H4 H5 H6 H7].
  destruct e; simpl.
  - (* Mount *)
    destruct (phase w) eqn:P; try (apply turn_keep; reflexivity).
    unfold mount, effect_userId, subscribeToNotifications,
      loadUnreadNotifications, effect_notifications. cbv zeta. simpl.
    rewrite (H5 eq_refl). simpl.
    apply turn_keep; [unfold showing; simpl; rewrite (H5 eq_refl); reflexivity|].
    unfold confetti_started. simpl. rewrite !filter_app. simpl.
    rewrite !app_nil_r. reflexivity.
  - (* Unmount *)
    destruct (phase w) eqn:P; try (apply turn_keep; reflexivity).
    destruct (effect_pending w); try (apply turn_keep; reflexivity).
    unfold unmount. rewrite H6. simpl. apply turn_keep; reflexivity.
  - (* LoadDone *)
    destruct (effect_pending w); try (apply turn_keep; reflexivity).
    destruct (loads w); try (apply turn_keep; reflexivity).
    unfold loadUnreadNotifications_resume.
    destruct (error r); try (apply turn_keep; reflexivity).
    destruct (data r); try (apply turn_keep; reflexivity).
    unfold setNotifications. simpl.
    destruct (phase w); apply turn_keep; reflexivity.
  - (* InsertEvent *)
    destruct (subscribed w); try (apply turn_keep; reflexivity).
    unfold loadUnreadNotifications.
    apply turn_keep; [reflexivity|].
    rewrite confetti_started_emit. simpl. unfold confetti_started. simpl. lia.
  - (* Flush *)
    destruct (effect_pending w) eqn:E; try (apply turn_keep; reflexivity).
    destruct (effect_notifications_turn (with_effect_pending false w))
      as [[T L]|[n (S1 & S2 & S3 & S4)]]; [simpl; auto| |].
    + destruct T; subst; try discriminate.
      * apply turn_keep; auto.
      * eapply turn_show; eauto.
    + apply turn_show with n; auto.
      * unfold showing. rewrite S3. reflexivity.
      * rewrite S3. simpl. exact S2.
      * unfold confetti_started. rewrite S4, filter_app, length_app.
        simpl. lia.
  - (* Click *)
    destruct (effect_pending w); try (apply turn_keep; reflexivity).
    destruct (phase w); try (apply turn_keep; reflexivity).
    destruct (render (st w)); try (apply turn_keep; reflexivity).
    unfold handleClose.
    destruct (currentNotification (st w)); try (apply turn_keep; reflexivity).
    apply turn_keep; [reflexivity|].
    rewrite confetti_started_emit. simpl. unfold confetti_started. simpl. lia.
  - (* RpcDone *)
    destruct (effect_pending w); try (apply turn_keep; reflexivity).
    destruct (nth_error (rpcs w) i) as [c|] eqn:N;
      try (apply turn_keep; reflexivity).
    unfold handleClose_resume.
    destruct (currentNotification c) as [n|];
      try (apply turn_keep; reflexivity).
    unfold setNotifications, setShowNotification, setCurrentNotification,
      set_state. simpl.
    destruct (phase w) eqn:P; simpl; rewrite ?P; simpl; rewrite ?P; simpl.
    + apply turn_keep; [reflexivity|].
      rewrite confetti_started_emit. simpl. unfold confetti_started. simpl. lia.
    + apply turn_hide with i r; auto.
      rewrite confetti_started_emit. simpl. unfold confetti_started. simpl. lia.
    + apply turn_keep; [reflexivity|].
      rewrite confetti_started_emit. simpl. unfold confetti_started. simpl. lia.
  - (* Advance *)
    destruct (0 <=? dt); apply turn_keep; reflexivity.
  - (* TimerFire *)
    destruct (nth_error (timers w) i) as [[due c]|] eqn:N;
      try (apply turn_keep; reflexivity).
    destruct (due <=? now w); try (apply turn_keep; reflexivity).
    assert (Hc : showNotification c = true).
    { apply nth_error_In in N. rewrite Forall_forall in H2.
      apply (H2 (due, c)); auto. }
    rewrite showNextNotification_stale by auto.
    apply turn_keep; reflexivity.
  - (* IntervalFire *)
    destruct (nth_error (intervals w) i) as [iv|];
      try (apply turn_keep; reflexivity).
    destruct (next_fire iv <=? now w); try (apply turn_keep; reflexivity).
    unfold interval_callback.
    destruct (animationEnd iv - now w <=? 0).
    + apply turn_keep; [reflexivity|].
      rewrite confetti_started_emit. simpl. unfold confetti_started. simpl. lia.
    + apply turn_keep; [reflexivity|].
      rewrite !confetti_started_emit. simpl. unfold confetti_started. simpl.
      lia.
Qed.

Lemma presented_turn (w w' : World) (e : Event) :
  turn w w' e ->
  confetti_started w' = (confetti_started w + List.length (presented w w'))%nat.
Proof.
  unfold presented. intros [K C|n S0 S1 Hd C E|i r S1 C E]; rewrite C.
  - rewrite K. destruct (showing w); simpl; lia.
  - rewrite S0, S1. simpl. lia.
  - rewrite S1. destruct (showing w); simpl; lia.
Qed.

(** ** Single presentation *)

(** C2: after any sequence of events (mount, unmount, load results,
    live-feed inserts, effect flushes, clicks, mark-read completions, timer
    and interval firings) at most one notification is on screen; the flag
    [showNotification] and the slot [currentNotification] agree, and no turn
    of the event loop replaces the notification on screen by another one. *)
Theorem C2_single_presentation (evs : list Event) (e : Event) :
  (List.length (on_screen (run init evs)) <= 1)%nat
  /\ (showNotification (st (run init evs)) = true
      <-> currentNotification (st (run init evs)) <> None)
  /\ (forall n m,
        showing (run init evs) = Some n ->
        showing (step (run init evs) e) = Some m ->
        n = m).
Proof.
  assert (I : Inv (run init evs)) by (apply Inv_run, Inv_init).
  split; [|split].
  - unfold on_screen. destruct (showing (run init evs)); simpl; lia.
  - apply (inv_flags _ I).
  - intros n m Hn Hm.
    destruct (step_turn _ e I) as [K C|k S0 S1 Hd C E|i r S1 C E]; congruence.
Qed.

Lemma C2_single_presentation_witness :
  showing (run init sample_showing) = Some sample_A
  /\ showing (step (run init sample_showing)
                   (LoadDone (loaded [sample_B; sample_A]))) = Some sample_A
  /\ sample_A = sample_A.
Proof.
  assert (Hn : showing (run init sample_showing) = Some sample_A)
    by reflexivity.
  assert (Hm : showing (step (run init sample_showing)
                             (LoadDone (loaded [sample_B; sample_A])))
               = Some sample_A) by reflexivity.
  split; [exact Hn|split; [exact Hm|]].
  exact (proj2 (proj2 (C2_single_presentation
                         sample_showing
                         (LoadDone (loaded [sample_B; sample_A]))))
               sample_A sample_A Hn Hm).
Defined.

(** ** Confetti *)

(** C7: [triggerConfetti] starts an animation exactly once at every turn
    that goes Idle -> Showing and at no other turn; in particular, while a
    notification is on screen, a reload (with whatever result) followed by
    the effect it schedules leaves that notification on screen and starts
    no animation. *)
Theorem C7_confetti_once_per_presentation (evs : list Event) (e : Event) :
  confetti_started (step (run init evs) e)
  = (confetti_started (run init evs)
     + List.length (presented (run init evs) (step (run init evs) e)))%nat
  /\ (forall n r,
        showing (run init evs) = Some n ->
        showing (run (run init evs) [LoadDone r; Flush]) = Some n
        /\ confetti_started (run (run init evs) [LoadDone r; Flush])
           = confetti_started (run init evs)).
Proof.
  assert (I : Inv (run init evs)) by (apply Inv_run, Inv_init).
  split.
  - apply presented_turn with e, step_turn, I.
  - intros n r Hn.
    change (run (run init evs) [LoadDone r; Flush])
      with (step (step (run init evs) (LoadDone r)) Flush).
    pose proof (Inv_step _ (LoadDone r) I) as I1.
    destruct (step_turn _ (LoadDone r) I) as [K C|k S0 S1 Hd C E|i q S1 C E];
      try discriminate.
    destruct (step_turn _ Flush I1) as [K' C'|k S0 S1 Hd C' E|i q S1 C' E];
      try discriminate.
    + split; congruence.
    + congruence.
Qed.

Lemma C7_confetti_once_per_presentation_witness :
  showing (run init sample_showing) = Some sample_A
  /\ showing (run (run init sample_showing)
                  [LoadDone (loaded [sample_A; sample_C]); Flush])
     = Some sample_A
  /\ confetti_started (run (run init sample_showing)
                          [LoadDone (loaded [sample_A; sample_C]); Flush])
     = confetti_started (run init sample_showing).
Proof.
  assert (Hn : showing (run init sample_showing) = Some sample_A)
    by reflexivity.
  split; [exact Hn|].
  exact (proj2 (C7_confetti_once_per_presentation sample_showing Flush)
               sample_A (loaded [sample_A; sample_C]) Hn).
Defined.

(** ** Sessions in which dismissals do not overlap *)

Lemma shown_trace_app (evs1 evs2 : list Event) (w : World) :
  shown_trace w (evs1 ++ evs2)
  = shown_trace w evs1 ++ shown_trace (run w evs1) evs2.
Proof.
  revert w. induction evs1 as [|e evs1 IH]; intros w; simpl; auto.
  rewrite IH, app_assoc. reflexivity.
Qed.

Lemma core_split (evs : list Event) (e : Event) (rest : list Event) :
  core evs = e :: rest ->
  exists noise evs',
    evs = noise ++ e :: evs'
    /\ Forall (fun x => is_timing x = true) noise
    /\ core evs' = rest.
Proof.
  induction evs as [|x evs IH]; simpl; [discriminate|].
  destruct (is_timing x) eqn:T; simpl; intros H.
  - destruct (IH H) as (noise & evs' & -> & F & C).
    exists (x :: noise), evs'. repeat split; auto.
  - inversion H; subst. exists [], evs. repeat split; auto.
Qed.

Lemma core_nil (evs : list Event) :
  core evs = [] -> Forall (fun x => is_timing x = true) evs.
Proof.
  induction evs as [|x evs IH]; simpl; auto.
  destruct (is_timing x) eqn:T; simpl; [auto|discriminate].
Qed.

Lemma presented_same_st (w w' : World) : st w' = st w -> presented w w' = [].
Proof.
  unfold presented, showing. intros ->. destruct (render (st w)); reflexivity.
Qed.

Lemma timing_step (w : World) (e : Event) :
  Inv w -> is_timing e = true -> coreof (step w e) = coreof w.
Proof.
  intros I T. destruct e; try discriminate; simpl.
  - destruct (0 <=? dt); reflexivity.
  - destruct (nth_error (timers w) i) as [[due c]|] eqn:N; auto.
    destruct (due <=? now w); auto.
    rewrite showNextNotification_stale; [reflexivity|].
    apply nth_error_In in N. pose proof (inv_timers _ I) as F.
    rewrite Forall_forall in F. apply (F (due, c)); auto.
  - destruct (nth_error (intervals w) i) as [iv|]; auto.
    destruct (next_fire iv <=? now w); auto.
    unfold interval_callback.
    destruct (animationEnd iv - now w <=? 0); reflexivity.
Qed.

Lemma coreof_st (w w' : World) : coreof w' = coreof w -> st w' = st w.
Proof. unfold coreof. congruence. Qed.

Lemma timing_run (noise : list Event) (w : World) :
  Inv w -> Forall (fun x => is_timing x = true) noise ->
  coreof (run w noise) = coreof w /\ shown_trace w noise = [].
Proof.
  revert w. induction noise as [|e noise IH]; intros w I F; [split; reflexivity|].
  inversion F; subst.
  pose proof (timing_step _ e I H1) as C.
  destruct (IH (step w e) (Inv_step _ e I) H2) as [C' S'].
  change (run w (e :: noise)) with (run (step w e) noise).
  cbn [shown_trace].
  rewrite S', (presented_same_st _ _ (coreof_st _ _ C)).
  split; [congruence|reflexivity].
Qed.

(** Timer noise ahead of the next core event can be skipped. *)
Lemma advance (w : World) (evs : list Event) (e : Event) (rest : list Event) :
  Inv w -> core evs = e :: rest ->
  exists w1 evs',
    Inv w1 /\ coreof w1 = coreof w /\ core evs' = rest
    /\ shown_trace w evs = presented w1 (step w1 e) ++ shown_trace (step w1 e) evs'
    /\ run w evs = run (step w1 e) evs'.
Proof.
  intros I C. destruct (core_split _ _ _ C) as (noise & evs' & -> & F & C').
  destruct (timing_run _ _ I F) as [K S0].
  exists (run w noise), evs'.
  split; [apply Inv_run, I|].
  split; [exact K|]. split; [exact C'|]. split.
  - rewrite shown_trace_app, S0. reflexivity.
  - rewrite run_app. reflexivity.
Qed.

(** The three turns of a dismissal, on the part of the world they read. *)

Lemma click_core (w : World) (q : list Notification) (n : Notification) (k : nat) :
  coreof w = (mkState q true (Some n), Mounted, false, [], k) ->
  coreof (step w Click)
  = (mkState q true (Some n), Mounted, false, [mkState q true (Some n)], k).
Proof.
  destruct w; unfold coreof; simpl. intros H; inversion H; subst. reflexivity.
Qed.

Lemma rpc_core (w : World) (s c : State) (n : Notification) (r : RpcResult)
      (k : nat) :
  currentNotification c = Some n ->
  coreof w = (s, Mounted, false, [c], k) ->
  coreof (step w (RpcDone 0 r))
  = (mkState (removeById (id n) (notifications s)) false None,
     Mounted, true, [], k).
Proof.
  destruct w; unfold coreof; simpl. intros Hc H; inversion H; subst.
  unfold handleClose_resume. rewrite Hc. reflexivity.
Qed.

Lemma flush_core (w : World) (q : list Notification) (k : nat) :
  coreof w = (mkState q false None, Mounted, true, [], k) ->
  coreof (step w Flush)
  = (match q with
     | [] => mkState [] false None
     | m :: _ => mkState q true (Some m)
     end, Mounted, false, [], k).
Proof.
  destruct w; unfold coreof; simpl. intros H; inversion H; subst.
  destruct q; reflexivity.
Qed.

Lemma load_core (w : World) (s : State) (l : list Notification) (k : nat) :
  coreof w = (s, Mounted, false, [], S k) ->
  coreof (step w (LoadDone (loaded l)))
  = (mkState l (showNotification s) (currentNotification s),
     Mounted, true, [], k).
Proof.
  destruct w; unfold coreof; simpl. intros H; inversion H; subst. reflexivity.
Qed.

Lemma mount_core (w : World) :
  coreof w = coreof init ->
  coreof (step w Mount) = (initial_state, Mounted, false, [], 1%nat).
Proof.
  destruct w; unfold coreof; simpl. intros H; inversion H; subst. reflexivity.
Qed.

Lemma removeById_head (n : Notification) (q : list Notification) :
  ~ In (id n) (map id q) -> removeById (id n) (n :: q) = q.
Proof.
  intros H. unfold removeById. simpl. rewrite String.eqb_refl. simpl.
  induction q as [|m q IH]; simpl in *; auto.
  destruct (String.eqb_spec (id m) (id n)) as [E|E]; simpl.
  - exfalso. apply H. left. exact E.
  - f_equal. apply IH. intros F. apply H. right. exact F.
Qed.

Lemma presented_core (w w' : World) :
  presented w w'
  = match render (st w), render (st w') with
    | None, Some m => [modal_of m]
    | _, _ => []
    end.
Proof.
  unfold presented, showing.
  destruct (render (st w)), (render (st w')); reflexivity.
Qed.

Lemma coreof_st_eq (w : World) (s : State) (p : Phase) (b : bool)
      (r : list State) (k : nat) :
  coreof w = (s, p, b, r, k) -> st w = s.
Proof. unfold coreof. intros H; inversion H; reflexivity. Qed.

Lemma presented_states (w w' : World) (s s' : State) :
  st w = s -> st w' = s' ->
  presented w w'
  = match render s, render s' with
    | None, Some m => [modal_of m]
    | _, _ => []
    end.
Proof. intros <- <-. apply presented_core. Qed.

Lemma dismissals_S (k : nat) :
  dismissals (S k) = Click :: RpcDone 0 RpcOk :: Flush :: dismissals k.
Proof. reflexivity. Qed.

(** One dismissal, from "showing the head [n] of the queue [n :: q]": the
    queue becomes [q], and its head, if any, is put on screen. *)
Lemma one_dismissal (q : list Notification) (n : Notification) (w : World)
      (evs rest : list Event) (k : nat) :
  Inv w ->
  coreof w = (mkState (n :: q) true (Some n), Mounted, false, [], k) ->
  ~ In (id n) (map id q) ->
  core evs = Click :: RpcDone 0 RpcOk :: Flush :: rest ->
  exists w' evs',
    Inv w'
    /\ coreof w' = (match q with
                    | [] => mkState [] false None
                    | m :: _ => mkState q true (Some m)
                    end, Mounted, false, [], k)
    /\ core evs' = rest
    /\ shown_trace w evs
       = match q with [] => [] | m :: _ => [m] end ++ shown_trace w' evs'
    /\ run w evs = run w' evs'.
Proof.
  intros I K Hn C.
  destruct (advance w evs _ _ I C) as (w1 & evs1 & I1 & K1 & C1 & T1 & R1).
  rewrite K in K1.
  pose proof (click_core _ _ _ _ K1) as K2.
  pose proof (Inv_step _ Click I1) as I2.
  destruct (advance _ evs1 _ _ I2 C1) as (w3 & evs2 & I3 & K3 & C2 & T2 & R2).
  rewrite K2 in K3.
  pose proof (rpc_core _ _ (mkState (n :: q) true (Some n)) n RpcOk _
                       eq_refl K3) as K4.
  cbn [notifications] in K4.
  rewrite (removeById_head _ _ Hn) in K4.
  pose proof (Inv_step _ (RpcDone 0 RpcOk) I3) as I4.
  destruct (advance _ evs2 _ _ I4 C2) as (w5 & evs3 & I5 & K5 & C3 & T3 & R3).
  rewrite K4 in K5.
  pose proof (flush_core _ _ _ K5) as K6.
  pose proof (Inv_step _ Flush I5) as I6.
  exists (step w5 Flush), evs3.
  split; [exact I6|]. split; [exact K6|]. split; [exact C3|]. split.
  - rewrite T1, T2, T3.
    rewrite (presented_states _ _ _ _ (coreof_st_eq _ _ _ _ _ _ K1)
                              (coreof_st_eq _ _ _ _ _ _ K2)).
    rewrite (presented_states _ _ _ _ (coreof_st_eq _ _ _ _ _ _ K3)
                              (coreof_st_eq _ _ _ _ _ _ K4)).
    rewrite (presented_states _ _ _ _ (coreof_st_eq _ _ _ _ _ _ K5)
                              (coreof_st_eq _ _ _ _ _ _ K6)).
    destruct q; reflexivity.
  - rewrite R1, R2, R3. reflexivity.
Qed.

(** Dismissing one notification after the other shows the rest of the queue
    in order and ends Idle on the empty queue. *)
Lemma dismiss_all (q : list Notification) :
  forall (n : Notification) (w : World) (evs : list Event) (k : nat),
    Inv w ->
    coreof w = (mkState (n :: q) true (Some n), Mounted, false, [], k) ->
    NoDup (map id (n :: q)) ->
    core evs = dismissals (S (List.length q)) ->
    shown_trace w evs = q
    /\ coreof (run w evs) = (mkState [] false None, Mounted, false, [], k).
Proof.
  induction q as [|m q IH]; intros n w evs k I K D C;
    rewrite dismissals_S in C;
    inversion D as [|? ? Hn D']; subst;
    destruct (one_dismissal _ _ _ _ _ _ I K Hn C)
      as (w' & evs' & I' & K' & C' & T' & R');
    rewrite T', R'.
  - (* the queue was [n] *)
    destruct (timing_run _ _ I' (core_nil _ C')) as [K7 S7].
    rewrite S7, K7. split; [reflexivity|exact K'].
  - (* the queue was n :: m :: q *)
    destruct (IH m _ evs' k I' K' D' C') as [S7 K7].
    rewrite S7. split; [reflexivity|exact K7].
Qed.

(** A whole session: the trace is the loaded list, and the component ends
    Idle on the empty queue. *)
Lemma session_trace (l : list Notification) (evs : list Event) :
  NoDup (map id l) ->
  core evs = session l ->
  shown_trace init evs = l
  /\ notifications (st (run init evs)) = []
  /\ showing (run init evs) = None.
Proof.
  intros D C. unfold session in C. cbn [app] in C.
  destruct (advance init evs _ _ Inv_init C) as (w1 & evs1 & I1 & K1 & C1 & T1 & R1).
  pose proof (mount_core _ K1) as K2.
  pose proof (Inv_step _ Mount I1) as I2.
  destruct (advance _ evs1 _ _ I2 C1) as (w3 & evs2 & I3 & K3 & C2 & T2 & R2).
  rewrite K2 in K3.
  pose proof (load_core _ _ l _ K3) as K4.
  cbn [initial_state showNotification currentNotification] in K4.
  pose proof (Inv_step _ (LoadDone (loaded l)) I3) as I4.
  destruct (advance _ evs2 _ _ I4 C2) as (w5 & evs3 & I5 & K5 & C3 & T3 & R3).
  rewrite K4 in K5.
  pose proof (flush_core _ _ _ K5) as K6.
  pose proof (Inv_step _ Flush I5) as I6.
  rewrite T1, T2, T3, R1, R2, R3.
  rewrite (presented_states _ _ _ _ (coreof_st_eq _ _ _ _ _ _ K1)
                            (coreof_st_eq _ _ _ _ _ _ K2)).
  rewrite (presented_states _ _ _ _ (coreof_st_eq _ _ _ _ _ _ K3)
                            (coreof_st_eq _ _ _ _ _ _ K4)).
  rewrite (presented_states _ _ _ _ (coreof_st_eq _ _ _ _ _ _ K5)
                            (coreof_st_eq _ _ _ _ _ _ K6)).
  destruct l as [|n q];
    cbn [render showNotification currentNotification negb app modal_of
         initial_state init st].
  - destruct (timing_run _ _ I6 (core_nil _ C3)) as [K7 S7].
    rewrite S7. rewrite K6 in K7.
    unfold showing. rewrite (coreof_st_eq _ _ _ _ _ _ K7). auto.
  - destruct (dismiss_all q n _ evs3 _ I6 K6 D C3) as [S7 K7].
    rewrite S7. unfold showing. rewrite (coreof_st_eq _ _ _ _ _ _ K7). auto.
Qed.

(** ** The store's answer is in ascending [created_at] order *)

Lemma insert_by_created_at_perm (n : Notification) (l : list Notification) :
  Permutation (insert_by_created_at n l) (n :: l).
Proof.
  induction l as [|m l IH]; simpl; auto.
  destruct (created_at n <=? created_at m); auto.
  rewrite IH. apply perm_swap.
Qed.

Lemma order_by_created_at_perm (l : list Notification) :
  Permutation (order_by_created_at l) l.
Proof.
  induction l as [|n l IH]; simpl; auto.
  rewrite insert_by_created_at_perm. auto.
Qed.

Lemma insert_by_created_at_sorted (n : Notification) (l : list Notification) :
  StronglySorted earlier l ->
  ~ In (created_at n) (map created_at l) ->
  StronglySorted earlier (insert_by_created_at n l).
Proof.
  induction 1 as [|m l S IH F]; intros N; simpl.
  - repeat constructor.
  - destruct (Z.leb_spec (created_at n) (created_at m)) as [L|L].
    + assert (Lt : earlier n m).
      { unfold earlier. simpl in N.
        assert (created_at m <> created_at n) by tauto. lia. }
      constructor; [constructor; assumption|].
      constructor; [exact Lt|].
      rewrite Forall_forall in F |- *. intros x Hx.
      specialize (F x Hx). unfold earlier in *. lia.
    + constructor.
      * apply IH. simpl in N. tauto.
      * rewrite Forall_forall in F |- *. intros x Hx.
        apply (Permutation_in _ (insert_by_created_at_perm n l)) in Hx.
        destruct Hx as [<-|Hx]; [exact L|auto].
Qed.

Lemma order_by_created_at_sorted (l : list Notification) :
  NoDup (map created_at l) -> StronglySorted earlier (order_by_created_at l).
Proof.
  induction l as [|n l IH]; simpl; intros D; [constructor|].
  inversion D as [|? ? N D']; subst.
  apply insert_by_created_at_sorted; [auto|].
  intros H. apply N.
  apply (Permutation_in _ (Permutation_map created_at
                             (order_by_created_at_perm l))). exact H.
Qed.

(** Selecting rows keeps their ids distinct. *)
Lemma unread_rows_distinct (userId : string) (table : list Notification) :
  NoDup (map id table) -> NoDup (map id (unread_rows userId table)).
Proof.
  unfold unread_rows.
  induction table as [|n t IH]; intros D; [constructor|].
  apply NoDup_cons_iff in D. destruct D as [N D]. cbn [filter].
  destruct ((user_id n =? userId)%string && negb (is_read n));
    [|exact (IH D)].
  cbn [map]. apply NoDup_cons; [|exact (IH D)].
  intros H. apply N.
  apply in_map_iff in H. destruct H as (m & E & Hm).
  apply filter_In in Hm. rewrite <- E. apply in_map. apply Hm.
Qed.

(** ** Occurrences in a trace *)

Lemma occurrences_absent (nid : string) (l : list Notification) :
  ~ In nid (map id l) -> occurrences nid l = 0%nat.
Proof.
  unfold occurrences. induction l as [|m l IH]; simpl; auto.
  intros H. destruct (String.eqb_spec (id m) nid) as [E|E]; [tauto|].
  apply IH. tauto.
Qed.

Lemma occurrences_NoDup (l : list Notification) (n : Notification) :
  NoDup (map id l) -> In n l -> occurrences (id n) l = 1%nat.
Proof.
  induction l as [|m l IH]; simpl; intros D H; [contradiction|].
  inversion D as [|? ? N D']; subst.
  unfold occurrences in *. simpl.
  destruct H as [->|H].
  - rewrite String.eqb_refl. simpl. f_equal.
    apply (occurrences_absent _ _ N).
  - destruct (String.eqb_spec (id m) (id n)) as [E|E].
    + exfalso. apply N. rewrite E. apply in_map, H.
    + apply IH; auto.
Qed.

(** ** Acknowledgment *)

Lemma notifications_effect (w : World) :
  notifications (st (effect_notifications w)) = notifications (st w).
Proof.
  unfold effect_notifications, showNextNotification.
  destruct ((0 <? List.length (notifications (st w)))%nat
            && negb (showNotification (st w))); [|reflexivity].
  unfold triggerConfetti, setShowNotification, setCurrentNotification,
    set_state. simpl.
  destruct (phase w) eqn:P; simpl; rewrite ?P; reflexivity.
Qed.

Lemma notifications_flush (w : World) :
  notifications (st (step w Flush)) = notifications (st w).
Proof.
  simpl. destruct (effect_pending w); [|reflexivity].
  rewrite notifications_effect. reflexivity.
Qed.

Lemma notifications_resume (c : State) (r : RpcResult) (w : World) :
  notifications (st (handleClose_resume c r w))
  = match currentNotification c, phase w with
    | Some n, Mounted => removeById (id n) (notifications (st w))
    | _, _ => notifications (st w)
    end.
Proof.
  unfold handleClose_resume.
  destruct (currentNotification c) as [n|]; [|reflexivity].
  unfold setNotifications, setShowNotification, setCurrentNotification,
    set_state. simpl.
  destruct (phase w) eqn:P; simpl; rewrite ?P; simpl; rewrite ?P; reflexivity.
Qed.

Lemma phase_resume (c : State) (r : RpcResult) (w : World) :
  phase (handleClose_resume c r w) = phase w.
Proof.
  unfold handleClose_resume.
  destruct (currentNotification c) as [n|]; [|reflexivity].
  unfold setNotifications, setShowNotification, setCurrentNotification,
    set_state. simpl.
  destruct (phase w) eqn:P; repeat progress (simpl; rewrite ?P); reflexivity.
Qed.

Lemma phase_flush (w : World) : phase (step w Flush) = phase w.
Proof.
  simpl. destruct (effect_pending w); [|reflexivity].
  unfold effect_notifications, showNextNotification. simpl.
  destruct ((0 <? List.length (notifications (st w)))%nat
            && negb (showNotification (st w))); [|reflexivity].
  unfold triggerConfetti, setShowNotification, setCurrentNotification,
    set_state. simpl.
  destruct (phase w) eqn:P; repeat progress (simpl; rewrite ?P); reflexivity.
Qed.

(** C4: removing an id from the queue twice gives the same queue as
    removing it once; removal only ever drops items (nothing comes back, and
    nothing with the removed id stays); and when the continuation of
    [handleClose] runs a second time for the same notification, even after
    the effect of the first run, the queue is what the first run left. *)
Theorem C4_acknowledge_idempotent
        (nid : string) (q : list Notification)
        (c : State) (r1 r2 : RpcResult) (w : World) :
  removeById nid (removeById nid q) = removeById nid q
  /\ (forall m, In m (removeById nid q) -> In m q /\ id m <> nid)
  /\ notifications
       (st (handleClose_resume c r2 (step (handleClose_resume c r1 w) Flush)))
     = notifications (st (handleClose_resume c r1 w)).
Proof.
  split; [apply removeById_idempotent|]. split.
  - intros m. apply removeById_In.
  - rewrite notifications_resume, phase_flush, phase_resume,
      notifications_flush, notifications_resume.
    destruct (currentNotification c) as [n|]; [|reflexivity].
    destruct (phase w); try reflexivity.
    apply removeById_idempotent.
Qed.

Lemma C4_acknowledge_idempotent_witness :
  In sample_B (removeById "A" [sample_A; sample_B])
  /\ In sample_B [sample_A; sample_B] /\ id sample_B <> "A"%string.
Proof.
  assert (H : In sample_B (removeById "A" [sample_A; sample_B]))
    by (simpl; left; reflexivity).
  split; [exact H|].
  exact (proj1 (proj2 (C4_acknowledge_idempotent
                         "A" [sample_A; sample_B] initial_state
                         RpcOk RpcOk init)) sample_B H).
Defined.

(** C5: when the mark-read call of a dismissal resolves, with whatever
    outcome, the continuation removes the dismissed id from the queue and
    commits the Idle state; the resulting world does not depend on the
    outcome. *)
Theorem C5_removal_regardless_of_outcome
        (w : World) (i : nat) (c : State) (n : Notification) (r : RpcResult) :
  phase w = Mounted ->
  effect_pending w = false ->
  nth_error (rpcs w) i = Some c ->
  currentNotification c = Some n ->
  notifications (st (step w (RpcDone i r)))
  = removeById (id n) (notifications (st w))
  /\ ~ In (id n) (map id (notifications (st (step w (RpcDone i r)))))
  /\ showNotification (st (step w (RpcDone i r))) = false
  /\ currentNotification (st (step w (RpcDone i r))) = None
  /\ showing (step w (RpcDone i r)) = None
  /\ step w (RpcDone i r) = step w (RpcDone i RpcOk).
Proof.
  intros P E N C.
  assert (Q : notifications (st (step w (RpcDone i r)))
              = removeById (id n) (notifications (st w))).
  { simpl. rewrite E, N, notifications_resume, C. simpl. rewrite P.
    reflexivity. }
  split; [exact Q|]. split.
  { rewrite Q. intros H. apply in_map_iff in H. destruct H as (m & Hm & H).
    apply removeById_In in H. tauto. }
  simpl. rewrite E, N. unfold handleClose_resume. rewrite C.
  unfold showing, setNotifications, setShowNotification,
    setCurrentNotification, set_state. simpl.
  rewrite P. simpl. rewrite P. simpl. rewrite P. simpl. auto.
Qed.

Lemma C5_removal_regardless_of_outcome_witness :
  phase sample_dismissing = Mounted
  /\ effect_pending sample_dismissing = false
  /\ nth_error (rpcs sample_dismissing) 0
     = Some (mkState [sample_A; sample_B] true (Some sample_A))
  /\ notifications (st (step sample_dismissing (RpcDone 0 (RpcError "offline"))))
     = [sample_B]
  /\ showing (step sample_dismissing (RpcDone 0 (RpcError "offline"))) = None.
Proof.
  split; [reflexivity|]. split; [reflexivity|]. split; [reflexivity|].
  destruct (C5_removal_regardless_of_outcome
              sample_dismissing 0
              (mkState [sample_A; sample_B] true (Some sample_A))
              sample_A (RpcError "offline")
              eq_refl eq_refl eq_refl eq_refl) as (Q & _ & _ & _ & S0 & _).
  split; [exact Q|exact S0].
Defined.

(** C10: [handleClose] of a render whose [currentNotification] is null
    changes nothing at all: no mark-read call is issued, nothing is suspended
    (so no queue change, no Idle commit and no settling timer can follow);
    and a click in a world whose [currentNotification] is null changes
    nothing either. *)
Theorem C10_close_without_current_is_noop (c : State) (w : World) :
  currentNotification c = None ->
  handleClose c w = w
  /\ (forall r, handleClose_resume c r w = w)
  /\ (c = st w -> step w Click = w).
Proof.
  intros H. unfold handleClose, handleClose_resume. rewrite H.
  split; [reflexivity|]. split; [reflexivity|].
  intros ->. simpl. unfold render, handleClose. rewrite H.
  destruct (effect_pending w), (phase w), (showNotification (st w));
    reflexivity.
Qed.

Lemma C10_close_without_current_is_noop_witness :
  currentNotification (st (run init [Mount])) = None
  /\ handleClose (st (run init [Mount])) (run init [Mount]) = run init [Mount]
  /\ step (run init [Mount]) Click = run init [Mount].
Proof.
  assert (H : currentNotification (st (run init [Mount])) = None)
    by reflexivity.
  split; [exact H|].
  destruct (C10_close_without_current_is_noop
              (st (run init [Mount])) (run init [Mount]) H) as (H1 & _ & H3).
  split; [exact H1|exact (H3 eq_refl)].
Defined.

(** ** Order of presentation *)

Lemma presented_is_head (w : World) (e : Event) (n : Notification) :
  Inv w ->
  presented w (step w e) = [n] ->
  hd_error (notifications (st (step w e))) = Some n.
Proof.
  intros I P. unfold presented in P.
  destruct (step_turn _ e I) as [K C|k S0 S1 Hd C E|i r S1 C E].
  - rewrite K in P. destruct (showing w); discriminate.
  - rewrite S0, S1 in P. inversion P; subst. exact Hd.
  - rewrite S1 in P. destruct (showing w); discriminate.
Qed.

Lemma presented_cases (w w' : World) :
  presented w w' = [] \/ exists n, presented w w' = [n].
Proof.
  unfold presented. destruct (showing w), (showing w'); eauto.
Qed.

Lemma notifications_showNextNotification (c : State) (w : World) :
  notifications (st (showNextNotification c w)) = notifications (st w).
Proof.
  unfold showNextNotification.
  destruct ((0 <? List.length (notifications c))%nat
            && negb (showNotification c)); [|reflexivity].
  unfold triggerConfetti, setShowNotification, setCurrentNotification,
    set_state. simpl.
  destruct (phase w) eqn:P; repeat progress (simpl; rewrite ?P); reflexivity.
Qed.

Lemma st_cleanups (cs : list Cleanup) (v : World) :
  st (fold_left (fun w' c => run_cleanup c w') cs v) = st v.
Proof.
  revert v. induction cs as [|c cs IH]; intros v; simpl; auto.
  rewrite IH. destruct c. reflexivity.
Qed.

(** Only a load result can add to the queue: any other event leaves it as
    it is, or removes from it the id of the notification that a suspended
    [handleClose] closed over. *)
Lemma notifications_step (w : World) (e : Event) :
  is_load e = false ->
  notifications (st (step w e)) = notifications (st w)
  \/ exists c n,
       In c (rpcs w) /\ currentNotification c = Some n
       /\ notifications (st (step w e))
          = removeById (id n) (notifications (st w)).
Proof.
  intros L. destruct e; try discriminate; simpl.
  - destruct (phase w); auto.
    unfold mount, effect_userId, subscribeToNotifications,
      loadUnreadNotifications. cbv zeta.
    rewrite notifications_effect. auto.
  - destruct (phase w); auto. destruct (effect_pending w); auto.
    unfold unmount. simpl. rewrite st_cleanups. auto.
  - destruct (subscribed w); auto.
  - left. apply notifications_flush.
  - destruct (effect_pending w); auto. destruct (phase w); auto.
    destruct (render (st w)); auto.
    unfold handleClose. destruct (currentNotification (st w)); auto.
  - destruct (effect_pending w); auto.
    destruct (nth_error (rpcs w) i) as [c|] eqn:N; auto.
    rewrite notifications_resume. simpl.
    destruct (currentNotification c) as [n|] eqn:C; auto.
    destruct (phase w); auto.
    right. exists c, n. split; [eapply nth_error_In; eauto|]. auto.
  - destruct (0 <=? dt); auto.
  - destruct (nth_error (timers w) i) as [[due c]|]; auto.
    destruct (due <=? now w); auto.
    rewrite notifications_showNextNotification. auto.
  - destruct (nth_error (intervals w) i) as [iv|]; auto.
    destruct (next_fire iv <=? now w); auto.
    unfold interval_callback.
    destruct (animationEnd iv - now w <=? 0); auto.
Qed.

Lemma removeById_sorted (nid : string) (q : list Notification) :
  StronglySorted earlier q -> StronglySorted earlier (removeById nid q).
Proof.
  induction 1 as [|n q S IH F]; simpl; [constructor|].
  destruct (negb (id n =? nid)%string); [|exact IH].
  constructor; [exact IH|].
  rewrite Forall_forall in F |- *. intros x Hx.
  apply removeById_In in Hx. apply F. tauto.
Qed.

Lemma step_queue_sorted (w : World) (e : Event) :
  is_load e = false ->
  StronglySorted earlier (notifications (st w)) ->
  StronglySorted earlier (notifications (st (step w e)))
  /\ (forall x, In x (notifications (st (step w e))) ->
                In x (notifications (st w))).
Proof.
  intros L S0.
  destruct (notifications_step w e L) as [->|(c & n & _ & _ & ->)].
  - auto.
  - split; [apply removeById_sorted, S0|].
    intros x Hx. apply removeById_In in Hx. tauto.
Qed.

(** Without a further load result, what gets on screen comes from the
    queue, in ascending [created_at] order. *)
Lemma trace_ascending (evs : list Event) :
  forall w : World,
    Inv w ->
    Forall (fun e => is_load e = false) evs ->
    StronglySorted earlier (notifications (st w)) ->
    StronglySorted not_later (shown_trace w evs)
    /\ (forall x, In x (shown_trace w evs) -> In x (notifications (st w))).
Proof.
  induction evs as [|e evs IH]; intros w I F S0; simpl.
  - split; [constructor|contradiction].
  - inversion F as [|? ? L F']; subst.
    destruct (step_queue_sorted w e L S0) as [S1 Sub].
    destruct (IH (step w e) (Inv_step _ e I) F' S1) as [T1 In1].
    destruct (presented_cases w (step w e)) as [P|[n P]]; rewrite P; simpl.
    + split; [exact T1|]. intros x Hx. auto.
    + pose proof (presented_is_head _ _ _ I P) as Hd.
      destruct (notifications (st (step w e))) as [|m q] eqn:Q;
        [discriminate|].
      simpl in Hd. inversion Hd; subst m.
      inversion S1 as [|? ? Sq Fq]; subst.
      split.
      * constructor; [exact T1|].
        rewrite Forall_forall in Fq |- *. intros x Hx.
        destruct (In1 x Hx) as [<-|Hq].
        -- unfold not_later. lia.
        -- specialize (Fq x Hq). unfold earlier, not_later in *. lia.
      * intros x [<-|Hx]; [apply Sub; left; reflexivity|].
        apply Sub. auto.
Qed.

(** C3: whatever the order of the rows in the store, when the unread rows
    of the user have distinct [created_at] (and ids), a session that loads
    them and dismisses them one at a time shows them in ascending
    [created_at] order.  Whenever a turn of the event loop puts a
    notification on screen, it is the head of the queue; and from any world
    whose queue is in ascending [created_at] order, whatever happens next
    short of another load result, the notifications that get on screen do so
    in ascending [created_at] order. *)
Theorem C3_shown_in_created_at_order
        (userId : string) (table : list Notification) (evs : list Event) :
  NoDup (map id table) ->
  NoDup (map created_at (unread_rows userId table)) ->
  core evs = [Mount; LoadDone (unread_query userId table); Flush]
             ++ dismissals (List.length (unread_rows userId table)) ->
  shown_trace init evs = order_by_created_at (unread_rows userId table)
  /\ StronglySorted earlier (shown_trace init evs)
  /\ (forall evs' e n,
        presented (run init evs') (step (run init evs') e) = [n] ->
        hd_error (notifications (st (step (run init evs') e))) = Some n)
  /\ (forall evs0 evs1,
        StronglySorted earlier (notifications (st (run init evs0))) ->
        Forall (fun e => is_load e = false) evs1 ->
        StronglySorted not_later (shown_trace (run init evs0) evs1)).
Proof.
  intros Did Dt C.
  set (l := order_by_created_at (unread_rows userId table)).
  assert (Dl : NoDup (map id l)).
  { apply (Permutation_NoDup
             (Permutation_sym
                (Permutation_map id
                   (order_by_created_at_perm (unread_rows userId table))))).
    apply unread_rows_distinct, Did. }
  assert (Cl : core evs = session l).
  { rewrite C. unfold session, l. f_equal.
    rewrite (Permutation_length
               (order_by_created_at_perm (unread_rows userId table))).
    reflexivity. }
  destruct (session_trace l evs Dl Cl) as (T & _ & _).
  split; [exact T|]. split; [|split].
  - rewrite T. apply order_by_created_at_sorted, Dt.
  - intros evs' e n. apply presented_is_head, Inv_run, Inv_init.
  - intros evs0 evs1 S0 F.
    apply (trace_ascending evs1 (run init evs0)); auto.
    apply Inv_run, Inv_init.
Qed.

Lemma C3_shown_in_created_at_order_witness :
  NoDup (map id sample_table)
  /\ NoDup (map created_at (unread_rows "user-1" sample_table))
  /\ core sample_table_session
     = [Mount; LoadDone (unread_query "user-1" sample_table); Flush]
       ++ dismissals (List.length (unread_rows "user-1" sample_table))
  /\ shown_trace init sample_table_session = [sample_A; sample_B; sample_C]
  /\ StronglySorted earlier (shown_trace init sample_table_session)
  /\ StronglySorted earlier (notifications (st (run init sample_showing)))
  /\ StronglySorted not_later
       (shown_trace (run init sample_showing)
          [Click; Click; RpcDone 0 RpcOk; Flush; RpcDone 0 RpcOk; Flush]).
Proof.
  assert (Did : NoDup (map id sample_table)) by nodup_tac.
  assert (Dt : NoDup (map created_at (unread_rows "user-1" sample_table)))
    by nodup_tac.
  assert (Sq : StronglySorted earlier
                 (notifications (st (run init sample_showing)))).
  { repeat constructor. }
  split; [exact Did|]. split; [exact Dt|]. split; [reflexivity|].
  destruct (C3_shown_in_created_at_order "user-1" sample_table
              sample_table_session Did Dt eq_refl) as (T & S0 & _ & G).
  split; [exact T|]. split; [exact S0|]. split; [exact Sq|].
  apply (G sample_showing); [exact Sq|].
  repeat constructor.
Defined.

(** ** Eventual delivery *)

Lemma In_remove_nth (A : Type) (l : list A) (i : nat) (x : A) :
  In x (remove_nth i l) -> In x l.
Proof.
  revert i. induction l as [|y l IH]; intros [|i]; simpl; auto.
  intros [->|H]; eauto.
Qed.

Lemma rpcs_showNextNotification (c : State) (w : World) :
  rpcs (showNextNotification c w) = rpcs w.
Proof.
  unfold showNextNotification.
  destruct ((0 <? List.length (notifications c))%nat
            && negb (showNotification c)); [|reflexivity].
  unfold triggerConfetti, setShowNotification, setCurrentNotification,
    set_state. simpl.
  destruct (phase w) eqn:P; repeat progress (simpl; rewrite ?P); reflexivity.
Qed.

Lemma rpcs_effect_notifications (w : World) :
  rpcs (effect_notifications w) = rpcs w.
Proof.
  unfold effect_notifications.
  destruct ((0 <? List.length (notifications (st w)))%nat
            && negb (showNotification (st w))); [|reflexivity].
  apply rpcs_showNextNotification.
Qed.

Lemma rpcs_cleanups (cs : list Cleanup) (v : World) :
  rpcs (fold_left (fun w' c => run_cleanup c w') cs v) = rpcs v.
Proof.
  revert v. induction cs as [|c cs IH]; intros v; simpl; auto.
  rewrite IH. destruct c. reflexivity.
Qed.

Lemma rpcs_resume (c : State) (r : RpcResult) (w : World) :
  rpcs (handleClose_resume c r w) = rpcs w.
Proof.
  unfold handleClose_resume.
  destruct (currentNotification c) as [n|]; [|reflexivity].
  unfold setNotifications, setShowNotification, setCurrentNotification,
    set_state. simpl.
  destruct (phase w) eqn:P; repeat progress (simpl; rewrite ?P); reflexivity.
Qed.

(** A [handleClose] gets suspended only by a click on the modal. *)
Lemma rpcs_step (w : World) (e : Event) (c : State) :
  In c (rpcs (step w e)) ->
  In c (rpcs w) \/ (c = st w /\ exists m, render (st w) = Some m).
Proof.
  destruct e; simpl.
  - destruct (phase w); auto.
    unfold mount, effect_userId, subscribeToNotifications,
      loadUnreadNotifications. cbv zeta.
    rewrite rpcs_effect_notifications. auto.
  - destruct (phase w); auto. destruct (effect_pending w); auto.
    unfold unmount. simpl. rewrite rpcs_cleanups. auto.
  - destruct (effect_pending w); auto. destruct (loads w); auto.
    unfold loadUnreadNotifications_resume, setNotifications.
    destruct (error r), (data r); auto.
    simpl. destruct (phase w); auto.
  - destruct (subscribed w); auto.
  - destruct (effect_pending w); auto.
    rewrite rpcs_effect_notifications. auto.
  - destruct (effect_pending w); auto. destruct (phase w); auto.
    destruct (render (st w)) as [m|] eqn:R; auto.
    unfold handleClose. destruct (currentNotification (st w)); auto.
    simpl. intros H. apply in_app_or in H. destruct H as [H|[<-|[]]]; eauto.
  - destruct (effect_pending w); auto.
    destruct (nth_error (rpcs w) i) as [c0|]; auto.
    rewrite rpcs_resume. simpl. intros H. left.
    eapply In_remove_nth; eauto.
  - destruct (0 <=? dt); auto.
  - destruct (nth_error (timers w) i) as [[due c0]|]; auto.
    destruct (due <=? now w); auto.
    rewrite rpcs_showNextNotification. auto.
  - destruct (nth_error (intervals w) i) as [iv|]; auto.
    destruct (next_fire iv <=? now w); auto.
    unfold interval_callback.
    destruct (animationEnd iv - now w <=? 0); auto.
Qed.

Lemma seen_app (T T' : list Notification) (w : World) :
  seen T w -> seen (T ++ T') w.
Proof.
  intros [H1 H2]. split; intros; rewrite map_app; apply in_or_app; left; eauto.
Qed.

Lemma seen_step (T : list Notification) (w : World) (e : Event) :
  Inv w -> seen T w -> seen (T ++ presented w (step w e)) (step w e).
Proof.
  intros I [H1 H2]. split.
  - intros n Hn. rewrite map_app. apply in_or_app.
    destruct (step_turn _ e I) as [K C|k S0 S1 Hd C E|i r S1 C E].
    + left. apply H1. congruence.
    + right. unfold presented. rewrite S0, S1.
      left. congruence.
    + congruence.
  - intros c n Hc Hn. rewrite map_app. apply in_or_app. left.
    destruct (rpcs_step _ _ _ Hc) as [Hc'|[-> [m R]]]; [eauto|].
    apply H1. unfold showing. rewrite R. simpl.
    apply render_Some_show in R. destruct R as [_ R]. congruence.
Qed.

Lemma seen_run (evs : list Event) :
  forall (T : list Notification) (w : World),
    Inv w -> seen T w -> seen (T ++ shown_trace w evs) (run w evs).
Proof.
  induction evs as [|e evs IH]; intros T w I H.
  - simpl. rewrite app_nil_r. exact H.
  - cbn [shown_trace]. rewrite app_assoc.
    change (run w (e :: evs)) with (run (step w e) evs).
    apply IH; [apply Inv_step, I|apply seen_step; assumption].
Qed.

Lemma removeById_drops (k nid : string) (q : list Notification) :
  In nid (map id q) -> ~ In nid (map id (removeById k q)) -> nid = k.
Proof.
  intros H N. apply in_map_iff in H. destruct H as (n & E & Hn).
  destruct (string_dec (id n) k) as [Ek|Ek]; [congruence|].
  exfalso. apply N. apply in_map_iff. exists n. split; [exact E|].
  apply removeById_In. auto.
Qed.

(** Without a further load result, an id leaves the queue only after a
    notification with that id has been on screen. *)
Lemma left_queue_seen (evs : list Event) :
  forall (T : list Notification) (w : World) (nid : string),
    Inv w -> seen T w ->
    Forall (fun e => is_load e = false) evs ->
    In nid (map id (notifications (st w))) ->
    ~ In nid (map id (notifications (st (run w evs)))) ->
    In nid (map id (T ++ shown_trace w evs)).
Proof.
  induction evs as [|e evs IH]; intros T w nid I H F Hin Hout.
  - contradiction.
  - inversion F as [|? ? L F']; subst.
    change (run w (e :: evs)) with (run (step w e) evs) in Hout.
    cbn [shown_trace]. rewrite app_assoc.
    destruct (in_dec string_dec nid (map id (notifications (st (step w e)))))
      as [Hin'|Hout'].
    + apply IH; auto using Inv_step, seen_step.
    + rewrite map_app. apply in_or_app. left.
      rewrite map_app. apply in_or_app. left.
      destruct (notifications_step w e L) as [Q|(c & n & Hc & Hn & Q)];
        rewrite Q in Hout'; [contradiction|].
      rewrite (removeById_drops _ _ _ Hin Hout').
      destruct H as [_ H2]. eauto.
Qed.

Lemma seen_init : seen [] init.
Proof.
  split.
  - intros n H. discriminate.
  - intros c n H. contradiction.
Qed.

(** C1, as stated, fails: with [A; B] loaded and no mark-read failure, a
    second click on the modal of [A] while the first mark-read call is in
    flight puts [B] on screen twice before the queue is empty. *)
Lemma C1_double_click_shows_twice :
  shown_trace init double_click_session = [sample_A; sample_B; sample_B]
  /\ occurrences "B" (shown_trace init double_click_session) = 2%nat
  /\ notifications (st (run init double_click_session)) = []
  /\ log (run init double_click_session)
     = [Select; Subscribe; SetInterval 250;
        MarkRead "A"; MarkRead "A";
        SetTimeout 500; SetInterval 250;
        SetTimeout 500; SetInterval 250;
        MarkRead "B"; SetTimeout 500].
Proof. repeat split; reflexivity. Qed.

(** C1, amended.  Under any schedule, as long as no further load result
    arrives, a notification of the queue that is no longer in the queue has
    been on screen: once the queue is empty, every loaded notification has
    been shown at least once.  And when the initial load answers [l]
    (distinct ids) and the notifications are then dismissed one at a time,
    each mark-read call resolving without failure before the next click and
    no other load result arriving, every notification of [l] is put on
    screen exactly once, in the order of [l], and the component ends Idle on
    the empty queue.  Clock and timer events may be interleaved anywhere. *)
Theorem C1_each_shown_once (l : list Notification) (evs : list Event) :
  (forall evs0 evs1 n,
      Forall (fun e => is_load e = false) evs1 ->
      In n (notifications (st (run init evs0))) ->
      ~ In (id n) (map id (notifications (st (run init (evs0 ++ evs1))))) ->
      In (id n) (map id (shown_trace init (evs0 ++ evs1))))
  /\ (NoDup (map id l) ->
      core evs = session l ->
      shown_trace init evs = l
      /\ (forall n, In n l -> occurrences (id n) (shown_trace init evs) = 1%nat)
      /\ notifications (st (run init evs)) = []
      /\ showing (run init evs) = None).
Proof.
  split.
  - intros evs0 evs1 n F Hin Hout.
    rewrite run_app in Hout. rewrite shown_trace_app.
    apply left_queue_seen; auto.
    + apply Inv_run, Inv_init.
    + apply (seen_run evs0 [] init Inv_init seen_init).
    + apply in_map, Hin.
  - intros D C. destruct (session_trace l evs D C) as (T & Q & S0).
    split; [exact T|]. split; [|split; assumption].
    intros n Hn. rewrite T. apply occurrences_NoDup; assumption.
Qed.

Lemma C1_each_shown_once_witness :
  (Forall (fun e => is_load e = false) double_click_rest
   /\ In sample_B (notifications (st (run init sample_showing)))
   /\ ~ In (id sample_B)
        (map id (notifications
                   (st (run init (sample_showing ++ double_click_rest)))))
   /\ In (id sample_B)
        (map id (shown_trace init (sample_showing ++ double_click_rest))))
  /\ NoDup (map id [sample_A; sample_B; sample_C])
  /\ core sample_session = session [sample_A; sample_B; sample_C]
  /\ shown_trace init sample_session = [sample_A; sample_B; sample_C]
  /\ (forall n, In n [sample_A; sample_B; sample_C] ->
        occurrences (id n) (shown_trace init sample_session) = 1%nat)
  /\ notifications (st (run init sample_session)) = []
  /\ showing (run init sample_session) = None.
Proof.
  assert (F : Forall (fun e => is_load e = false) double_click_rest)
    by (repeat constructor).
  assert (Hin : In sample_B (notifications (st (run init sample_showing))))
    by (right; left; reflexivity).
  assert (Hout : ~ In (id sample_B)
                   (map id (notifications
                      (st (run init (sample_showing ++ double_click_rest))))))
    by (intros H; exact H).
  assert (D : NoDup (map id [sample_A; sample_B; sample_C])) by nodup_tac.
  assert (C : core sample_session = session [sample_A; sample_B; sample_C])
    by reflexivity.
  destruct (C1_each_shown_once [sample_A; sample_B; sample_C] sample_session)
    as [G S0].
  split.
  - split; [exact F|]. split; [exact Hin|]. split; [exact Hout|].
    exact (G sample_showing double_click_rest sample_B F Hin Hout).
  - split; [exact D|]. split; [exact C|]. exact (S0 D C).
Defined.

(** ** Failed loads *)

Lemma diagnostics_emit (a : Action) (w : World) :
  is_ConsoleError a = false -> diagnostics (emit a w) = diagnostics w.
Proof.
  intros H. unfold diagnostics, emit. simpl.
  rewrite filter_app. simpl. rewrite H. apply app_nil_r.
Qed.

Lemma diagnostics_showNextNotification (c : State) (w : World) :
  diagnostics (showNextNotification c w) = diagnostics w.
Proof.
  unfold showNextNotification.
  destruct ((0 <? List.length (notifications c))%nat
            && negb (showNotification c)); [|reflexivity].
  unfold triggerConfetti. rewrite diagnostics_emit by reflexivity.
  unfold setShowNotification, setCurrentNotification, set_state. simpl.
  destruct (phase w) eqn:P; repeat progress (simpl; rewrite ?P); reflexivity.
Qed.

(** The component never writes a diagnostic. *)
Lemma diagnostics_step (w : World) (e : Event) :
  diagnostics (step w e) = diagnostics w.
Proof.
  destruct e; simpl.
  - destruct (phase w); try reflexivity.
    unfold mount, effect_userId, subscribeToNotifications,
      loadUnreadNotifications, effect_notifications. cbv zeta. simpl.
    match goal with
    | |- diagnostics (if ?b then _ else _) = _ => destruct b
    end; rewrite ?diagnostics_showNextNotification;
      unfold diagnostics; simpl; rewrite !filter_app; simpl;
      rewrite !app_nil_r; reflexivity.
  - destruct (phase w); try reflexivity.
    destruct (effect_pending w); try reflexivity.
    unfold unmount.
    assert (G : forall cs v, diagnostics
                  (fold_left (fun w' c => run_cleanup c w') cs v)
                = diagnostics v).
    { induction cs as [|c cs IH]; intros v; simpl; auto.
      rewrite IH. destruct c. simpl.
      rewrite diagnostics_emit by reflexivity. reflexivity. }
    unfold diagnostics at 1. simpl.
    change (diagnostics
              (fold_left (fun w' c => run_cleanup c w') (cleanups w)
                         (with_phase Unmounted w))
            = diagnostics (with_phase Unmounted w)).
    apply G.
  - destruct (effect_pending w); try reflexivity.
    destruct (loads w); try reflexivity.
    unfold loadUnreadNotifications_resume, setNotifications.
    destruct (error r), (data r); try reflexivity.
    simpl. destruct (phase w); reflexivity.
  - destruct (subscribed w); try reflexivity.
    unfold loadUnreadNotifications. rewrite diagnostics_emit by reflexivity. reflexivity.
  - destruct (effect_pending w); try reflexivity.
    unfold effect_notifications. simpl.
    match goal with
    | |- diagnostics (if ?b then _ else _) = _ => destruct b
    end; rewrite ?diagnostics_showNextNotification; reflexivity.
  - destruct (effect_pending w); try reflexivity.
    destruct (phase w); try reflexivity.
    destruct (render (st w)); try reflexivity.
    unfold handleClose. destruct (currentNotification (st w)); try reflexivity.
    rewrite diagnostics_emit by reflexivity. reflexivity.
  - destruct (effect_pending w); try reflexivity.
    destruct (nth_error (rpcs w) i); try reflexivity.
    unfold handleClose_resume.
    destruct (currentNotification s); try reflexivity.
    rewrite diagnostics_emit by reflexivity.
    unfold setNotifications, setShowNotification, setCurrentNotification,
      set_state. simpl.
    destruct (phase w) eqn:P; repeat progress (simpl; rewrite ?P); reflexivity.
  - destruct (0 <=? dt); reflexivity.
  - destruct (nth_error (timers w) i) as [[due c]|]; try reflexivity.
    destruct (due <=? now w); try reflexivity.
    rewrite diagnostics_showNextNotification. reflexivity.
  - destruct (nth_error (intervals w) i) as [iv|]; try reflexivity.
    destruct (next_fire iv <=? now w); try reflexivity.
    unfold interval_callback.
    destruct (animationEnd iv - now w <=? 0);
      rewrite !diagnostics_emit by reflexivity; reflexivity.
Qed.

Lemma diagnostics_run (evs : list Event) (w : World) :
  diagnostics (run w evs) = diagnostics w.
Proof.
  revert w. induction evs as [|e evs IH]; intros w; simpl; auto.
  change (diagnostics (run (step w e) evs) = diagnostics w).
  rewrite IH. apply diagnostics_step.
Qed.

(** C6, as stated, fails: after a failed load the log holds the two calls
    made at mount and nothing else; no diagnostic was recorded. *)
Lemma C6_failed_load_records_nothing :
  log sample_failed_load = [Select; Subscribe]
  /\ diagnostics sample_failed_load = []
  /\ ~ (exists msg, In (ConsoleError msg) (log sample_failed_load)).
Proof.
  split; [reflexivity|]. split; [reflexivity|].
  intros [msg H]. simpl in H. intuition discriminate.
Qed.

(** C6, amended: a load that resolves with an error leaves the three state
    cells as they were (so the queue keeps its prior contents, which is the
    empty queue when the first load fails) and makes no call on any
    collaborator; the only trace of it is that one request is no longer in
    flight.  Nothing is written as a diagnostic, neither then nor at any
    other time. *)
Theorem C6_failed_load_keeps_queue (w : World) (r : QueryResult) :
  error r <> None ->
  st (step w (LoadDone r)) = st w
  /\ log (step w (LoadDone r)) = log w
  /\ (step w (LoadDone r) = w
      \/ step w (LoadDone r) = with_loads (pred (loads w)) w)
  /\ notifications (st (run init [Mount; LoadDone r])) = []
  /\ (forall evs, diagnostics (run init evs) = []).
Proof.
  intros H. destruct (error r) as [msg|] eqn:E; [|congruence].
  assert (S0 : step w (LoadDone r) = w
               \/ step w (LoadDone r) = with_loads (pred (loads w)) w).
  { simpl. destruct (effect_pending w); auto.
    destruct (loads w) eqn:L; auto.
    unfold loadUnreadNotifications_resume. rewrite E. auto. }
  split; [destruct S0 as [->| ->]; reflexivity|].
  split; [destruct S0 as [->| ->]; reflexivity|].
  split; [exact S0|]. split.
  - simpl. unfold loadUnreadNotifications_resume. rewrite E. reflexivity.
  - intros evs. apply diagnostics_run.
Qed.

Lemma C6_failed_load_keeps_queue_witness :
  error (failed "network error") <> None
  /\ st sample_failed_load = st (run init [Mount])
  /\ log sample_failed_load = log (run init [Mount]).
Proof.
  assert (H : error (failed "network error") <> None) by discriminate.
  split; [exact H|].
  destruct (C6_failed_load_keeps_queue (run init [Mount])
              (failed "network error") H) as (S0 & L & _).
  split; [exact S0|exact L].
Defined.

(** ** Teardown *)

(** C8, as stated, fails: unmounting cancels neither timer.  The settling
    timer is still pending after the unmount and fires 500 ms later; the
    animation intervals are still running and the next firing calls
    [confetti] twice. *)
Lemma C8_timers_fire_after_teardown :
  phase sample_torn_down = Unmounted
  /\ map fst (timers sample_torn_down) = [600]
  /\ intervals sample_torn_down
     = [mkInterval 250 3000; mkInterval 350 3100]
  /\ timers (run sample_torn_down [Advance 500; TimerFire 0]) = []
  /\ log (run sample_torn_down [Advance 500; IntervalFire 0])
     = log sample_torn_down
       ++ [Confetti (50 * (inject_Z 2400 / inject_Z 3000));
           Confetti (50 * (inject_Z 2400 / inject_Z 3000))].
Proof. repeat split; reflexivity. Qed.

Lemma unmount_keeps_timers (w : World) :
  Inv w ->
  timers (step w Unmount) = timers w
  /\ intervals (step w Unmount) = intervals w.
Proof.
  intros I. simpl.
  destruct (phase w); auto. destruct (effect_pending w); auto.
  unfold unmount. rewrite (inv_cleanups _ I). simpl. auto.
Qed.

Lemma timer_callback_noop (w : World) (i : nat) :
  Inv w ->
  st (step w (TimerFire i)) = st w
  /\ log (step w (TimerFire i)) = log w
  /\ intervals (step w (TimerFire i)) = intervals w.
Proof.
  intros I. simpl.
  destruct (nth_error (timers w) i) as [[due c]|] eqn:N; auto.
  destruct (due <=? now w); auto.
  rewrite showNextNotification_stale; [simpl; auto|].
  apply nth_error_In in N. pose proof (inv_timers _ I) as F.
  rewrite Forall_forall in F. apply (F (due, c)); auto.
Qed.

(** C8, amended: neither timer is cancelled on teardown: unmounting leaves
    the pending settling timers and the running animation intervals as they
    are, so they fire afterwards.  Whenever a settling timer fires (before or
    after teardown) its callback changes no state, makes no call and starts
    no animation.  An animation interval stops by itself: the first firing at
    or after its [animationEnd] clears it. *)
Theorem C8_timers_survive_teardown (evs : list Event) :
  (timers (step (run init evs) Unmount) = timers (run init evs)
   /\ intervals (step (run init evs) Unmount) = intervals (run init evs))
  /\ (forall i,
        st (step (run init evs) (TimerFire i)) = st (run init evs)
        /\ log (step (run init evs) (TimerFire i)) = log (run init evs)
        /\ intervals (step (run init evs) (TimerFire i))
           = intervals (run init evs))
  /\ (forall i iv,
        nth_error (intervals (run init evs)) i = Some iv ->
        next_fire iv <= now (run init evs) ->
        animationEnd iv <= now (run init evs) ->
        intervals (step (run init evs) (IntervalFire i))
        = remove_nth i (intervals (run init evs))).
Proof.
  assert (I : Inv (run init evs)) by (apply Inv_run, Inv_init).
  split; [apply unmount_keeps_timers, I|].
  split; [intros i; apply timer_callback_noop, I|].
  intros i iv N F E. simpl. rewrite N.
  destruct (Z.leb_spec (next_fire iv) (now (run init evs))); [|lia].
  unfold interval_callback.
  destruct (Z.leb_spec (animationEnd iv - now (run init evs)) 0); [|lia].
  reflexivity.
Qed.

Lemma C8_timers_survive_teardown_witness :
  nth_error (intervals (run init sample_after_animation)) 0
  = Some (mkInterval 250 3000)
  /\ next_fire (mkInterval 250 3000) <= now (run init sample_after_animation)
  /\ animationEnd (mkInterval 250 3000) <= now (run init sample_after_animation)
  /\ intervals (step (run init sample_after_animation) (IntervalFire 0)) = [].
Proof.
  assert (N : nth_error (intervals (run init sample_after_animation)) 0
              = Some (mkInterval 250 3000)) by reflexivity.
  assert (F : next_fire (mkInterval 250 3000)
              <= now (run init sample_after_animation))
    by (vm_compute; discriminate).
  assert (E : animationEnd (mkInterval 250 3000)
              <= now (run init sample_after_animation))
    by (vm_compute; discriminate).
  split; [exact N|]. split; [exact F|]. split; [exact E|].
  exact (proj2 (proj2 (C8_timers_survive_teardown sample_after_animation))
               0%nat (mkInterval 250 3000) N F E).
Defined.

(** The subscription is opened at mount and nothing the component does
    closes it. *)
Lemma subscription_never_closed (evs : list Event) :
  phase (run init evs) <> Fresh -> subscribed (run init evs) = true.
Proof. apply inv_subscribed, Inv_run, Inv_init. Qed.

(** C9 on the code: [subscribeToNotifications] returns the function that
    would unsubscribe, but the effect that calls it returns nothing to React.
    After mount and unmount the channel is still subscribed, nothing was
    unsubscribed, and an insert event still runs the callback, which issues
    a query; the response changes no state. *)
Lemma C9_subscription_survives_unmount :
  snd (subscribeToNotifications init) = CleanupUnsubscribe
  /\ snd (effect_userId init) = None
  /\ phase (run init [Mount; Unmount]) = Unmounted
  /\ subscribed (run init [Mount; Unmount]) = true
  /\ log (run init [Mount; Unmount]) = [Select; Subscribe]
  /\ log (run init [Mount; Unmount; InsertEvent]) = [Select; Subscribe; Select]
  /\ loads (run init [Mount; Unmount; InsertEvent]) = 2%nat
  /\ st (run init [Mount; Unmount; InsertEvent;
                   LoadDone (loaded [sample_A])]) = initial_state.
Proof. repeat split; reflexivity. Qed.

(** * Further properties of the notification component *)

(** ** The calls of a turn *)

Lemma log_showNextNotification (c : State) (w : World) :
  log (showNextNotification c w)
  = log w ++ (if (0 <? List.length (notifications c))%nat
                 && negb (showNotification c)
              then [SetInterval 250] else []).
Proof.
  unfold showNextNotification.
  destruct ((0 <? List.length (notifications c))%nat
            && negb (showNotification c)); [|symmetry; apply app_nil_r].
  unfold triggerConfetti, setShowNotification, setCurrentNotification,
    set_state. simpl.
  destruct (phase w) eqn:P; repeat progress (simpl; rewrite ?P); reflexivity.
Qed.

Lemma log_resume (c : State) (r : RpcResult) (w : World) :
  log (handleClose_resume c r w)
  = log w ++ match currentNotification c with
             | Some _ => [SetTimeout 500]
             | None => []
             end.
Proof.
  unfold handleClose_resume.
  destruct (currentNotification c) as [n|]; [|symmetry; apply app_nil_r].
  unfold setNotifications, setShowNotification, setCurrentNotification,
    set_state. simpl.
  destruct (phase w) eqn:P; repeat progress (simpl; rewrite ?P); reflexivity.
Qed.

Ltac quiet_turn :=
  exists []; split; [rewrite ?app_nil_r; reflexivity|constructor].

(** What a turn adds to the log. *)
Lemma log_step (w : World) (e : Event) :
  Inv w ->
  exists acts, log (step w e) = log w ++ acts /\ Forall (may_emit w e) acts.
Proof.
  intros I. destruct e; simpl.
  - (* Mount *)
    destruct (phase w) eqn:P; try quiet_turn.
    exists [Select; Subscribe]. split.
    + unfold mount, effect_userId, subscribeToNotifications,
        loadUnreadNotifications, effect_notifications. cbv zeta. simpl.
      rewrite (inv_fresh _ I P). simpl. rewrite <- app_assoc. reflexivity.
    + constructor; [simpl; auto|].
      constructor; [simpl; auto|constructor].
  - (* Unmount *)
    destruct (phase w); try quiet_turn.
    destruct (effect_pending w); try quiet_turn.
    unfold unmount. rewrite (inv_cleanups _ I). simpl. quiet_turn.
  - (* LoadDone *)
    destruct (effect_pending w); try quiet_turn.
    destruct (loads w); try quiet_turn.
    unfold loadUnreadNotifications_resume, setNotifications.
    destruct (error r), (data r); try quiet_turn.
    simpl. destruct (phase w); quiet_turn.
  - (* InsertEvent *)
    destruct (subscribed w); try quiet_turn.
    exists [Select]. split; [reflexivity|].
    constructor; [simpl; auto|constructor].
  - (* Flush *)
    destruct (effect_pending w) eqn:E; try quiet_turn.
    unfold effect_notifications. cbn [st with_effect_pending].
    destruct ((0 <? List.length (notifications (st w)))%nat
              && negb (showNotification (st w))) eqn:G; try quiet_turn.
    rewrite log_showNextNotification. cbn [log with_effect_pending]. rewrite G.
    exists [SetInterval 250]. split; [reflexivity|].
    constructor; [simpl|constructor].
    split; [reflexivity|]. split; [reflexivity|].
    apply (inv_pending _ I E).
  - (* Click *)
    destruct (effect_pending w); try quiet_turn.
    destruct (phase w) eqn:P; try quiet_turn.
    destruct (render (st w)) as [m|] eqn:R; try quiet_turn.
    unfold handleClose.
    destruct (currentNotification (st w)) as [n|] eqn:C; try quiet_turn.
    exists [MarkRead (id n)]. split; [reflexivity|].
    constructor; [simpl|constructor].
    split; [reflexivity|]. split; [exact P|].
    exists n. split; [|reflexivity].
    unfold showing. rewrite R. simpl.
    apply render_Some_show in R. destruct R as [_ R]. congruence.
  - (* RpcDone *)
    destruct (effect_pending w); try quiet_turn.
    destruct (nth_error (rpcs w) i) as [c|]; try quiet_turn.
    rewrite log_resume. cbn [log with_rpcs].
    destruct (currentNotification c); try quiet_turn.
    exists [SetTimeout 500]. split; [reflexivity|].
    constructor; [simpl; eauto|constructor].
  - (* Advance *)
    destruct (0 <=? dt); quiet_turn.
  - (* TimerFire *)
    destruct (nth_error (timers w) i) as [[due c]|] eqn:N; try quiet_turn.
    destruct (due <=? now w); try quiet_turn.
    rewrite showNextNotification_stale; [quiet_turn|].
    apply nth_error_In in N. pose proof (inv_timers _ I) as F.
    rewrite Forall_forall in F. apply (F (due, c)); auto.
  - (* IntervalFire *)
    destruct (nth_error (intervals w) i) as [iv|]; try quiet_turn.
    destruct (next_fire iv <=? now w); try quiet_turn.
    unfold interval_callback.
    destruct (animationEnd iv - now w <=? 0).
    + exists [ClearInterval]. split; [reflexivity|].
      constructor; [simpl; eauto|constructor].
    + eexists [Confetti _; Confetti _]. split.
      * simpl. rewrite <- app_assoc. reflexivity.
      * constructor; [simpl; eauto|].
        constructor; [simpl; eauto|constructor].
Qed.


(** ** Mark-read calls *)

Lemma marked_run (evs : list Event) :
  forall (T : list Notification) (w : World),
    Inv w -> seen T w ->
    (forall nid, In (MarkRead nid) (log w) -> In nid (map id T)) ->
    forall nid,
      In (MarkRead nid) (log (run w evs)) ->
      In nid (map id (T ++ shown_trace w evs)).
Proof.
  induction evs as [|e evs IH]; intros T w I S0 M nid H.
  - simpl in *. rewrite app_nil_r. auto.
  - change (run w (e :: evs)) with (run (step w e) evs) in H.
    cbn [shown_trace]. rewrite app_assoc.
    apply (IH _ (step w e)); auto using Inv_step, seen_step.
    intros k Hk. rewrite map_app. apply in_or_app. left.
    destruct (log_step w e I) as (acts & L & F).
    rewrite L in Hk. apply in_app_or in Hk. destruct Hk as [Hk|Hk]; [auto|].
    rewrite Forall_forall in F. specialize (F _ Hk). simpl in F.
    destruct F as (_ & _ & n & Hn & <-).
    destruct S0 as [S1 _]. auto.
Qed.

(** X1: the component only ever asks the store to mark as read a
    notification that it has put on screen. *)
Theorem X1_mark_read_only_shown (evs : list Event) (nid : string) :
  In (MarkRead nid) (log (run init evs)) ->
  In nid (map id (shown_trace init evs)).
Proof.
  intros H.
  apply (marked_run evs [] init Inv_init seen_init); [|exact H].
  intros k Hk. contradiction.
Qed.

Lemma X1_mark_read_only_shown_witness :
  In (MarkRead "A") (log (run init double_click_session))
  /\ In "A"%string (map id (shown_trace init double_click_session)).
Proof.
  assert (H : In (MarkRead "A") (log (run init double_click_session)))
    by (vm_compute; do 3 right; left; reflexivity).
  split; [exact H|].
  exact (X1_mark_read_only_shown double_click_session "A" H).
Defined.

(** ** After the unmount *)

Lemma frozen_showNextNotification (c : State) (w : World) :
  phase w = Unmounted ->
  st (showNextNotification c w) = st w
  /\ phase (showNextNotification c w) = Unmounted.
Proof.
  intros P. unfold showNextNotification.
  destruct ((0 <? List.length (notifications c))%nat
            && negb (showNotification c)); [|auto].
  unfold triggerConfetti, setShowNotification, setCurrentNotification,
    set_state. simpl. rewrite P. simpl. rewrite P. auto.
Qed.

Lemma frozen_resume (c : State) (r : RpcResult) (w : World) :
  phase w = Unmounted ->
  st (handleClose_resume c r w) = st w
  /\ phase (handleClose_resume c r w) = Unmounted.
Proof.
  intros P. unfold handleClose_resume.
  destruct (currentNotification c); [|auto].
  unfold setNotifications, setShowNotification, setCurrentNotification,
    set_state. simpl. repeat progress (simpl; rewrite ?P). auto.
Qed.

Lemma frozen_step (w : World) (e : Event) :
  phase w = Unmounted ->
  st (step w e) = st w /\ phase (step w e) = Unmounted.
Proof.
  intros P. destruct e; simpl; rewrite ?P; auto.
  - destruct (effect_pending w); auto. destruct (loads w); auto.
    unfold loadUnreadNotifications_resume, setNotifications.
    destruct (error r), (data r); simpl; rewrite ?P; auto.
  - destruct (subscribed w); auto.
  - destruct (effect_pending w); auto.
    unfold effect_notifications. cbn [st with_effect_pending].
    destruct ((0 <? List.length (notifications (st w)))%nat
              && negb (showNotification (st w))); auto.
    apply (frozen_showNextNotification (st w) (with_effect_pending false w) P).
  - destruct (effect_pending w); auto.
  - destruct (effect_pending w); auto.
    destruct (nth_error (rpcs w) i) as [c|]; auto.
    apply (frozen_resume c r (with_rpcs (remove_nth i (rpcs w)) w) P).
  - destruct (0 <=? dt); auto.
  - destruct (nth_error (timers w) i) as [[due c]|]; auto.
    destruct (due <=? now w); auto.
    apply (frozen_showNextNotification c
             (with_timers (remove_nth i (timers w)) w) P).
  - destruct (nth_error (intervals w) i) as [iv|]; auto.
    destruct (next_fire iv <=? now w); auto.
    unfold interval_callback.
    destruct (animationEnd iv - now w <=? 0); auto.
Qed.

Lemma may_emit_after_unmount (w : World) (e : Event) (a : Action) :
  phase w = Unmounted -> may_emit w e a -> after_unmount a.
Proof.
  intros P. destruct a; simpl; auto.
  - intros [_ H]. congruence.
  - intros (_ & H & _). congruence.
  - intros (_ & _ & H). congruence.
Qed.

Lemma frozen_run (evs : list Event) :
  forall w : World,
    Inv w -> phase w = Unmounted ->
    st (run w evs) = st w
    /\ phase (run w evs) = Unmounted
    /\ exists acts,
         log (run w evs) = log w ++ acts /\ Forall after_unmount acts.
Proof.
  induction evs as [|e evs IH]; intros w I P.
  - split; [reflexivity|]. split; [exact P|].
    exists []. split; [symmetry; apply app_nil_r|constructor].
  - change (run w (e :: evs)) with (run (step w e) evs).
    destruct (frozen_step w e P) as [S1 P1].
    destruct (IH (step w e) (Inv_step _ e I) P1) as (S2 & P2 & acts2 & L2 & F2).
    destruct (log_step w e I) as (acts1 & L1 & F1).
    split; [congruence|]. split; [exact P2|].
    exists (acts1 ++ acts2). split.
    + rewrite L2, L1, app_assoc. reflexivity.
    + apply Forall_app. split; [|exact F2].
      rewrite Forall_forall in F1 |- *. intros a Ha.
      apply (may_emit_after_unmount w e a P (F1 a Ha)).
Qed.

(** X2: once the component is unmounted its state never changes again, and
    the only calls still made are unread queries (from the subscription that
    is still open), the settling timeout of a dismissal that was in flight,
    and the confetti and clearInterval calls of animations that were
    running: no mark-read call, no new animation, no new subscription. *)
Theorem X2_unmounted_is_frozen (evs0 evs : list Event) :
  phase (run init evs0) = Unmounted ->
  st (run init (evs0 ++ evs)) = st (run init evs0)
  /\ phase (run init (evs0 ++ evs)) = Unmounted
  /\ exists acts,
       log (run init (evs0 ++ evs)) = log (run init evs0) ++ acts
       /\ Forall after_unmount acts.
Proof.
  intros P. rewrite run_app.
  apply frozen_run; [apply Inv_run, Inv_init|exact P].
Qed.

Lemma X2_unmounted_is_frozen_witness :
  phase (run init [Mount; LoadDone (loaded [sample_A; sample_B]); Flush;
                   Click; Unmount]) = Unmounted
  /\ st (run init ([Mount; LoadDone (loaded [sample_A; sample_B]); Flush;
                    Click; Unmount]
                   ++ [RpcDone 0 RpcOk; Flush; InsertEvent;
                       LoadDone (loaded [sample_C]); Advance 500;
                       TimerFire 0; IntervalFire 0]))
     = mkState [sample_A; sample_B] true (Some sample_A).
Proof.
  assert (P : phase (run init [Mount; LoadDone (loaded [sample_A; sample_B]);
                               Flush; Click; Unmount]) = Unmounted)
    by reflexivity.
  split; [exact P|].
  exact (proj1 (X2_unmounted_is_frozen
                  [Mount; LoadDone (loaded [sample_A; sample_B]); Flush;
                   Click; Unmount]
                  [RpcDone 0 RpcOk; Flush; InsertEvent;
                   LoadDone (loaded [sample_C]); Advance 500;
                   TimerFire 0; IntervalFire 0] P)).
Defined.


(** ** The confetti animation *)

Lemma budget_app (l1 l2 : list Interval) :
  budget (l1 ++ l2) = budget l1 + budget l2.
Proof. induction l1 as [|iv l1 IH]; simpl; lia. Qed.

Lemma remaining_nonneg (iv : Interval) : 0 <= remaining iv.
Proof. unfold remaining. lia. Qed.

Lemma budget_nonneg (l : list Interval) : 0 <= budget l.
Proof.
  induction l as [|iv l IH]; simpl; [lia|].
  pose proof (remaining_nonneg iv). lia.
Qed.

Lemma budget_replace_nth (l : list Interval) (i : nat) (iv iv' : Interval) :
  nth_error l i = Some iv ->
  budget (replace_nth i iv' l) = budget l - remaining iv + remaining iv'.
Proof.
  revert i. induction l as [|x l IH]; intros [|i] H; simpl in *;
    try discriminate.
  - inversion H; subst. lia.
  - rewrite (IH i H). lia.
Qed.

Lemma budget_remove_nth (l : list Interval) (i : nat) (iv : Interval) :
  nth_error l i = Some iv ->
  budget (remove_nth i l) = budget l - remaining iv.
Proof.
  revert i. induction l as [|x l IH]; intros [|i] H; simpl in *;
    try discriminate.
  - inversion H; subst. lia.
  - rewrite (IH i H). lia.
Qed.

Lemma length_replace_nth (A : Type) (l : list A) (i : nat) (y : A) :
  List.length (replace_nth i y l) = List.length l.
Proof.
  revert i. induction l as [|x l IH]; intros [|i]; simpl; auto.
Qed.

Lemma length_remove_nth (A : Type) (l : list A) (i : nat) (x : A) :
  nth_error l i = Some x ->
  S (List.length (remove_nth i l)) = List.length l.
Proof.
  revert i. induction l as [|y l IH]; intros [|i] H; simpl in *;
    try discriminate; auto.
Qed.

Lemma Forall_replace_nth (A : Type) (P : A -> Prop) (l : list A) (i : nat)
      (y : A) :
  Forall P l -> P y -> Forall P (replace_nth i y l).
Proof.
  intros F Hy. revert i. induction F as [|x l Hx Hl IH]; intros [|i]; simpl;
    auto.
Qed.

(** One step fewer is left after a firing that was still inside the
    animation window. *)
Lemma remaining_after_burst (iv : Interval) (t : Z) :
  next_fire iv <= t -> 0 < animationEnd iv - t ->
  remaining (mkInterval (next_fire iv + 250) (animationEnd iv))
  = remaining iv - 1.
Proof.
  intros F E. unfold remaining. simpl.
  replace (animationEnd iv - (next_fire iv + 250) + 249)
    with ((animationEnd iv - next_fire iv + 249) + (-1) * 250) by lia.
  rewrite Z.div_add by lia.
  assert (1 <= (animationEnd iv - next_fire iv + 249) / 250).
  { apply Z.div_le_lower_bound; lia. }
  lia.
Qed.

Lemma particle_count_ok (timeLeft : Z) :
  0 < timeLeft -> timeLeft <= 2750 ->
  (0 < 50 * (inject_Z timeLeft / inject_Z duration)
   /\ 50 * (inject_Z timeLeft / inject_Z duration) <= 275 # 6)%Q.
Proof.
  intros L U. unfold duration, Qdiv, Qinv, inject_Z. cbn [Qnum Qden].
  unfold Qlt, Qle, Qmult. cbn [Qnum Qden].
  change (1 * (1 * 3000))%positive with 3000%positive.
  lia.
Qed.

Ltac anim_norm :=
  rewrite ?filter_app, ?length_app, ?budget_app, ?length_replace_nth;
  cbn [filter is_Confetti is_SetInterval is_ClearInterval List.length budget
       app];
  rewrite ?app_nil_r.

Lemma Anim_quiet (lg : list Action) (ivs : list Interval) (a : Action) :
  Anim lg ivs ->
  is_Confetti a = false -> is_SetInterval a = false ->
  is_ClearInterval a = false ->
  Anim (lg ++ [a]) ivs.
Proof.
  intros [B C W P] H1 H2 H3.
  constructor; rewrite ?filter_app; cbn [filter];
    rewrite ?H1, ?H2, ?H3, ?app_nil_r; auto.
  apply Forall_app. split; [exact P|]. constructor; [|constructor].
  destruct a; simpl; auto. discriminate.
Qed.

Lemma Anim_start (lg : list Action) (ivs : list Interval) (t : Z) :
  Anim lg ivs ->
  Anim (lg ++ [SetInterval 250])
       (ivs ++ [mkInterval (t + 250) (t + duration)]).
Proof.
  intros [B C W P].
  constructor; anim_norm.
  - unfold remaining, duration. cbn [next_fire animationEnd].
    replace (t + 3000 - (t + 250) + 249) with 2999 by lia.
    change (2999 / 250) with 11. lia.
  - lia.
  - apply Forall_app. split; [exact W|]. constructor; [|constructor].
    unfold duration. cbn [next_fire animationEnd]. lia.
  - apply Forall_app. split; [exact P|]. repeat constructor.
Qed.

Lemma Anim_burst (lg : list Action) (ivs : list Interval) (i : nat)
      (iv : Interval) (t : Z) :
  Anim lg ivs ->
  nth_error ivs i = Some iv ->
  next_fire iv <= t -> 0 < animationEnd iv - t ->
  Anim ((lg ++ [Confetti (50 * (inject_Z (animationEnd iv - t)
                                / inject_Z duration))])
        ++ [Confetti (50 * (inject_Z (animationEnd iv - t)
                            / inject_Z duration))])
       (replace_nth i (mkInterval (next_fire iv + 250) (animationEnd iv)) ivs).
Proof.
  intros [B C W P] N F E.
  assert (Wiv : animationEnd iv - 2750 <= next_fire iv).
  { rewrite Forall_forall in W. apply W. eapply nth_error_In; eauto. }
  constructor; anim_norm.
  - rewrite (budget_replace_nth _ _ _ _ N), (remaining_after_burst iv t F E).
    lia.
  - lia.
  - apply Forall_replace_nth; [exact W|]. cbn [next_fire animationEnd]. lia.
  - assert (Q : particle_ok (Confetti (50 * (inject_Z (animationEnd iv - t)
                                             / inject_Z duration)))).
    { cbn [particle_ok]. apply particle_count_ok; lia. }
    apply Forall_app. split; [apply Forall_app; split; [exact P|]|];
      constructor; auto.
Qed.

Lemma Anim_clear (lg : list Action) (ivs : list Interval) (i : nat)
      (iv : Interval) :
  Anim lg ivs ->
  nth_error ivs i = Some iv ->
  Anim (lg ++ [ClearInterval]) (remove_nth i ivs).
Proof.
  intros [B C W P] N.
  constructor; anim_norm.
  - rewrite (budget_remove_nth _ _ _ N).
    pose proof (remaining_nonneg iv). lia.
  - pose proof (length_remove_nth _ _ _ _ N). lia.
  - apply Forall_remove_nth, W.
  - apply Forall_app. split; [exact P|]. repeat constructor.
Qed.

Lemma intervals_showNextNotification (c : State) (w : World) :
  intervals (showNextNotification c w)
  = intervals w ++ (if (0 <? List.length (notifications c))%nat
                       && negb (showNotification c)
                    then [mkInterval (now w + 250) (now w + duration)]
                    else []).
Proof.
  unfold showNextNotification.
  destruct ((0 <? List.length (notifications c))%nat
            && negb (showNotification c)); [|symmetry; apply app_nil_r].
  unfold triggerConfetti, setShowNotification, setCurrentNotification,
    set_state. simpl.
  destruct (phase w) eqn:P; repeat progress (simpl; rewrite ?P); reflexivity.
Qed.

Lemma Anim_showNextNotification (c : State) (w : World) :
  Anim (log w) (intervals w) ->
  Anim (log (showNextNotification c w)) (intervals (showNextNotification c w)).
Proof.
  intros A. rewrite log_showNextNotification, intervals_showNextNotification.
  destruct ((0 <? List.length (notifications c))%nat
            && negb (showNotification c)).
  - apply Anim_start, A.
  - rewrite !app_nil_r. exact A.
Qed.

Lemma intervals_resume (c : State) (r : RpcResult) (w : World) :
  intervals (handleClose_resume c r w) = intervals w.
Proof.
  unfold handleClose_resume.
  destruct (currentNotification c) as [n|]; [|reflexivity].
  unfold setNotifications, setShowNotification, setCurrentNotification,
    set_state. simpl.
  destruct (phase w) eqn:P; repeat progress (simpl; rewrite ?P); reflexivity.
Qed.

Lemma Anim_step (w : World) (e : Event) :
  Inv w ->
  Anim (log w) (intervals w) ->
  Anim (log (step w e)) (intervals (step w e)).
Proof.
  intros I A. destruct e; simpl.
  - (* Mount *)
    destruct (phase w) eqn:P; auto.
    unfold mount, effect_userId, subscribeToNotifications,
      loadUnreadNotifications, effect_notifications. cbv zeta. simpl.
    rewrite (inv_fresh _ I P). simpl.
    apply Anim_quiet; auto. apply Anim_quiet; auto.
  - (* Unmount *)
    destruct (phase w); auto. destruct (effect_pending w); auto.
    unfold unmount. rewrite (inv_cleanups _ I). exact A.
  - (* LoadDone *)
    destruct (effect_pending w); auto. destruct (loads w); auto.
    unfold loadUnreadNotifications_resume, setNotifications.
    destruct (error r), (data r); auto.
    simpl. destruct (phase w); exact A.
  - (* InsertEvent *)
    destruct (subscribed w); auto.
    unfold loadUnreadNotifications. simpl. apply Anim_quiet; auto.
  - (* Flush *)
    destruct (effect_pending w); auto.
    unfold effect_notifications. cbn [st with_effect_pending].
    destruct ((0 <? List.length (notifications (st w)))%nat
              && negb (showNotification (st w))); auto.
    apply (Anim_showNextNotification (st w) (with_effect_pending false w) A).
  - (* Click *)
    destruct (effect_pending w); auto. destruct (phase w); auto.
    destruct (render (st w)); auto.
    unfold handleClose. destruct (currentNotification (st w)); auto.
    simpl. apply Anim_quiet; auto.
  - (* RpcDone *)
    destruct (effect_pending w); auto.
    destruct (nth_error (rpcs w) i) as [c|]; auto.
    rewrite log_resume, intervals_resume. cbn [log intervals with_rpcs].
    destruct (currentNotification c).
    + apply Anim_quiet; auto.
    + rewrite app_nil_r. exact A.
  - (* Advance *)
    destruct (0 <=? dt); exact A.
  - (* TimerFire *)
    destruct (nth_error (timers w) i) as [[due c]|]; auto.
    destruct (due <=? now w); auto.
    apply (Anim_showNextNotification c
             (with_timers (remove_nth i (timers w)) w) A).
  - (* IntervalFire *)
    destruct (nth_error (intervals w) i) as [iv|] eqn:N; auto.
    destruct (Z.leb_spec (next_fire iv) (now w)); auto.
    unfold interval_callback.
    destruct (Z.leb_spec (animationEnd iv - now w) 0).
    + simpl. apply Anim_clear with iv; auto.
    + simpl. apply Anim_burst; auto.
Qed.

Lemma Anim_run (evs : list Event) :
  forall w : World,
    Inv w -> Anim (log w) (intervals w) ->
    Anim (log (run w evs)) (intervals (run w evs)).
Proof.
  induction evs as [|e evs IH]; intros w I A; [exact A|].
  change (run w (e :: evs)) with (run (step w e) evs).
  apply IH; [apply Inv_step, I|apply Anim_step; assumption].
Qed.

Lemma Anim_init : Anim (log init) (intervals init).
Proof. constructor; simpl; try lia; constructor. Qed.

(** X3: an animation calls [confetti] at most 22 times (two calls at each
    of at most eleven firings inside its 3000 ms window): the number of
    [confetti] calls never exceeds 22 times the number of animations
    started. *)
Theorem X3_confetti_calls_bounded (evs : list Event) :
  (confetti_calls (run init evs) <= 22 * confetti_started (run init evs))%nat.
Proof.
  destruct (Anim_run evs init Inv_init Anim_init) as [B _ _ _].
  pose proof (budget_nonneg (intervals (run init evs))).
  unfold confetti_calls, confetti_started. lia.
Qed.



(** X5: animation intervals are accounted for: at any time the number of
    intervals still running plus the number of [clearInterval] calls equals
    the number of animations started, so no interval is cleared twice and
    none disappears without being cleared. *)
Theorem X5_intervals_accounted (evs : list Event) :
  (List.length (intervals (run init evs)) + cleared (run init evs)
   = confetti_started (run init evs))%nat.
Proof.
  destruct (Anim_run evs init Inv_init Anim_init) as [_ C _ _]. exact C.
Qed.


(** ** Reloads and the settling delay *)

Lemma idle_flag (w : World) :
  Inv w -> showing w = None -> showNotification (st w) = false.
Proof.
  intros I H. destruct (showNotification (st w)) eqn:S0; [|reflexivity].
  exfalso. apply (inv_flags _ I) in S0 as C.
  unfold showing, render in H. rewrite S0 in H. simpl in H.
  destruct (currentNotification (st w)); [discriminate|congruence].
Qed.

(** X6: the component keeps no record of what was dismissed: whenever
    nothing is on screen and a load answers a non-empty list, the head of
    that list is put on screen by the effect that follows, also when that
    notification was dismissed before. *)
Theorem X6_reload_shows_head_again
        (evs : list Event) (n : Notification) (q : list Notification) :
  phase (run init evs) = Mounted ->
  effect_pending (run init evs) = false ->
  (0 < loads (run init evs))%nat ->
  showing (run init evs) = None ->
  showing (run (run init evs) [LoadDone (loaded (n :: q)); Flush]) = Some n
  /\ notifications (st (run (run init evs) [LoadDone (loaded (n :: q)); Flush]))
     = n :: q.
Proof.
  intros P E L H.
  pose proof (idle_flag _ (Inv_run evs init Inv_init) H) as F.
  change (run (run init evs) [LoadDone (loaded (n :: q)); Flush])
    with (step (step (run init evs) (LoadDone (loaded (n :: q)))) Flush).
  destruct (run init evs) as [s p ep cl sb ld rp tm iv nw lg].
  simpl in P, E, L, F. subst p ep.
  destruct ld as [|k]; [lia|].
  destruct s as [ns sh cur]. simpl in F. subst sh.
  split; reflexivity.
Qed.

Lemma X6_reload_shows_head_again_witness :
  phase (run init sample_resurrection) = Mounted
  /\ effect_pending (run init sample_resurrection) = false
  /\ (0 < loads (run init sample_resurrection))%nat
  /\ showing (run init sample_resurrection) = None
  /\ In (MarkRead "A") (log (run init sample_resurrection))
  /\ showing (run (run init sample_resurrection)
                  [LoadDone (loaded [sample_A]); Flush]) = Some sample_A.
Proof.
  assert (P : phase (run init sample_resurrection) = Mounted) by reflexivity.
  assert (E : effect_pending (run init sample_resurrection) = false)
    by reflexivity.
  assert (L : (0 < loads (run init sample_resurrection))%nat)
    by (vm_compute; constructor).
  assert (H : showing (run init sample_resurrection) = None) by reflexivity.
  assert (M : In (MarkRead "A") (log (run init sample_resurrection)))
    by (vm_compute; do 3 right; left; reflexivity).
  split; [exact P|]. split; [exact E|]. split; [exact L|]. split; [exact H|].
  split; [exact M|].
  exact (proj1 (X6_reload_shows_head_again sample_resurrection
                  sample_A [] P E L H)).
Defined.

(** X7: there is no settling delay: when the mark-read call of a dismissal
    resolves, the effect of that commit puts the head of the remaining
    queue on screen at once, at the same clock time, while the 500 ms
    timeout that the dismissal scheduled is still pending. *)
Theorem X7_next_shown_without_delay
        (w : World) (i : nat) (c : State) (n : Notification) (r : RpcResult) :
  phase w = Mounted ->
  effect_pending w = false ->
  nth_error (rpcs w) i = Some c ->
  currentNotification c = Some n ->
  showing (run w [RpcDone i r; Flush])
  = hd_error (removeById (id n) (notifications (st w)))
  /\ now (run w [RpcDone i r; Flush]) = now w
  /\ timers (run w [RpcDone i r; Flush]) = timers w ++ [(now w + 500, c)].
Proof.
  intros P E N C.
  change (run w [RpcDone i r; Flush])
    with (step (step w (RpcDone i r)) Flush).
  destruct w as [s p ep cl sb ld rp tm iv nw lg].
  simpl in P, E, N. subst p ep.
  cbn [step effect_pending rpcs]. rewrite N.
  unfold handleClose_resume. rewrite C.
  cbn -[removeById].
  destruct (removeById (id n) (notifications s)) as [|m q'] eqn:Q;
    unfold effect_notifications; cbn -[removeById]; rewrite ?Q;
    cbn -[removeById]; rewrite ?Q; auto.
Qed.

Lemma X7_next_shown_without_delay_witness :
  phase sample_dismissing = Mounted
  /\ effect_pending sample_dismissing = false
  /\ nth_error (rpcs sample_dismissing) 0
     = Some (mkState [sample_A; sample_B] true (Some sample_A))
  /\ showing (run sample_dismissing [RpcDone 0 RpcOk; Flush]) = Some sample_B
  /\ now (run sample_dismissing [RpcDone 0 RpcOk; Flush])
     = now sample_dismissing.
Proof.
  split; [reflexivity|]. split; [reflexivity|]. split; [reflexivity|].
  destruct (X7_next_shown_without_delay
              sample_dismissing 0
              (mkState [sample_A; sample_B] true (Some sample_A))
              sample_A RpcOk eq_refl eq_refl eq_refl eq_refl) as (S0 & T & _).
  split; [exact S0|exact T].
Defined.


(** * Properties of the environment check *)

Lemma split_lines_nonempty (s : CheckEnv.jsstring) :
  exists l ls, CheckEnv.split_lines s = l :: ls.
Proof.
  induction s as [|c s (l & ls & IH)]; simpl; eauto.
  destruct (CheckEnv.isLineTerminator c); eauto.
  rewrite IH. eauto.
Qed.

(** A literal without line terminators matches at the beginning of a string
    exactly when it matches at the beginning of its first line. *)
Lemma starts_with_first_line (s : CheckEnv.jsstring) :
  forall p : CheckEnv.jsstring,
    CheckEnv.no_terminator p ->
    CheckEnv.starts_with p s
    = CheckEnv.starts_with p (hd [] (CheckEnv.split_lines s)).
Proof.
  induction s as [|c s IH]; intros p F; [reflexivity|].
  destruct p as [|a p]; [reflexivity|].
  inversion F as [|? ? Ha Fp]; subst.
  cbn [CheckEnv.split_lines].
  destruct (CheckEnv.isLineTerminator c) eqn:T.
  - cbn. destruct (N.eqb_spec a c) as [->|]; [congruence|reflexivity].
  - destruct (split_lines_nonempty s) as (l & ls & E).
    specialize (IH p Fp). rewrite E in IH |- *. cbn in IH |- *.
    rewrite IH. reflexivity.
Qed.

Lemma test_from_lines (s : CheckEnv.jsstring) :
  forall (p : CheckEnv.jsstring) (bol : bool),
    CheckEnv.no_terminator p ->
    CheckEnv.test_from bol p s
    = (bol && CheckEnv.starts_with p (hd [] (CheckEnv.split_lines s)))
      || existsb (CheckEnv.starts_with p) (tl (CheckEnv.split_lines s)).
Proof.
  induction s as [|c s IH]; intros p bol F.
  - cbn. rewrite orb_false_r. reflexivity.
  - cbn [CheckEnv.test_from]. rewrite (IH p _ F).
    rewrite (starts_with_first_line (c :: s) p F).
    cbn [CheckEnv.split_lines].
    destruct (CheckEnv.isLineTerminator c) eqn:T.
    + destruct (split_lines_nonempty s) as (l & ls & E). rewrite E.
      cbn. reflexivity.
    + destruct (split_lines_nonempty s) as (l & ls & E). rewrite E.
      cbn. reflexivity.
Qed.

Lemma existsb_assigned (p : CheckEnv.jsstring) (ls : list CheckEnv.jsstring) :
  existsb (CheckEnv.starts_with p) ls = true
  <-> exists l, In l ls /\ CheckEnv.starts_with p l = true.
Proof. apply existsb_exists. Qed.

Lemma units_no_terminator_required (v : string) :
  In v CheckEnv.requiredEnvVars ->
  CheckEnv.no_terminator (CheckEnv.units v ++ [61%N]).
Proof.
  intros [<-|[<-|[]]]; unfold CheckEnv.no_terminator; repeat constructor.
Qed.



Lemma regex_test_required (v : string) (envContent : CheckEnv.jsstring) :
  In v CheckEnv.requiredEnvVars ->
  (CheckEnv.regex_test v envContent = true <-> CheckEnv.assigned v envContent).
Proof.
  intros H. unfold CheckEnv.regex_test.
  rewrite (test_from_lines _ _ true (units_no_terminator_required v H)).
  destruct (split_lines_nonempty envContent) as (l & ls & E).
  unfold CheckEnv.assigned. rewrite E.
  change (true && CheckEnv.starts_with (CheckEnv.units v ++ [61%N]) (hd [] (l :: ls))
          || existsb (CheckEnv.starts_with (CheckEnv.units v ++ [61%N]))
                     (tl (l :: ls)))
    with (existsb (CheckEnv.starts_with (CheckEnv.units v ++ [61%N])) (l :: ls)).
  apply existsb_assigned.
Qed.

Lemma missingVars_spec (envContent : CheckEnv.jsstring) (v : string) :
  In v (CheckEnv.missingVars envContent)
  <-> In v CheckEnv.requiredEnvVars /\ ~ CheckEnv.assigned v envContent.
Proof.
  unfold CheckEnv.missingVars. rewrite filter_In, negb_true_iff.
  split; intros [H1 H2]; split; auto.
  - intros A. apply (regex_test_required v envContent H1) in A. congruence.
  - destruct (CheckEnv.regex_test v envContent) eqn:T; [|reflexivity].
    exfalso. apply H2. apply (regex_test_required v envContent H1). exact T.
Qed.

Lemma report_injective (v v' : string) :
  CheckEnv.report v = CheckEnv.report v' -> v = v'.
Proof. unfold CheckEnv.report. intros H. inversion H. reflexivity. Qed.

(** X9: the verdict of the script.  It runs to its end, printing its one
    line on stdout, exactly when the file could be read and every required
    variable is assigned on some line.  When the file could be read and a
    variable is not assigned it exits with code 1, and the variables it
    reports are exactly the required ones that are not assigned.  Nothing is
    ever printed on stdout in a failing run. *)
Theorem X9_check_env_verdict (r : CheckEnv.ReadResult) :
  (CheckEnv.exit (CheckEnv.check_env r) = CheckEnv.Completed
   <-> exists envContent,
         r = CheckEnv.ReadOk envContent
         /\ forall v, In v CheckEnv.requiredEnvVars ->
                      CheckEnv.assigned v envContent)
  /\ (forall envContent,
        r = CheckEnv.ReadOk envContent ->
        CheckEnv.exit (CheckEnv.check_env r) <> CheckEnv.Completed ->
        CheckEnv.exit (CheckEnv.check_env r) = CheckEnv.ExitCode 1
        /\ forall v,
             In (CheckEnv.report v) (CheckEnv.output (CheckEnv.check_env r))
             <-> In v CheckEnv.requiredEnvVars
                 /\ ~ CheckEnv.assigned v envContent)
  /\ ((exists l, In l (CheckEnv.output (CheckEnv.check_env r))
                 /\ CheckEnv.stream l = CheckEnv.Stdout)
      <-> CheckEnv.exit (CheckEnv.check_env r) = CheckEnv.Completed).
Proof.
  destruct r as [envContent|code]; cbn [CheckEnv.check_env].
  - destruct (CheckEnv.missingVars envContent) as [|m ms] eqn:M;
      cbn [List.length Nat.ltb Nat.leb CheckEnv.exit CheckEnv.output].
    + split; [|split].
      * split; [|reflexivity]. intros _. exists envContent.
        split; [reflexivity|]. intros v Hv.
        destruct (CheckEnv.regex_test v envContent) eqn:T.
        -- apply (regex_test_required v envContent Hv). exact T.
        -- assert (In v (CheckEnv.missingVars envContent)).
           { unfold CheckEnv.missingVars. apply filter_In. rewrite T. auto. }
           rewrite M in H. contradiction.
      * intros ? _ H. congruence.
      * split; [reflexivity|]. intros _. eexists. split; [left; reflexivity|].
        reflexivity.
    + split; [|split].
      * split; [discriminate|].
        intros (c & E & A). inversion E; subst c.
        assert (Hm : In m (CheckEnv.missingVars envContent))
          by (rewrite M; left; reflexivity).
        apply missingVars_spec in Hm. destruct Hm as [Hm N]. elim N. auto.
      * intros c E _. inversion E; subst c. split; [reflexivity|].
        intros v. rewrite <- missingVars_spec, M. split.
        -- intros [H|H]; [discriminate|]. cbn [app] in H.
           apply in_app_or in H. destruct H as [H|[H|[]]]; [|discriminate].
           apply in_map_iff in H. destruct H as (v' & E' & H).
           apply report_injective in E'. congruence.
        -- intros H. right. cbn [app]. apply in_or_app. left.
           apply in_map. exact H.
      * split; [|discriminate]. intros (l & [<-|H] & S0); [discriminate|].
        cbn [app] in H.
        apply in_app_or in H. destruct H as [H|[<-|[]]]; [|discriminate].
        apply in_map_iff in H. destruct H as (v' & <- & _). discriminate.
  - destruct (match code with
              | Some c => (c =? "ENOENT")%string
              | None => false
              end); cbn [CheckEnv.exit CheckEnv.output].
    + split; [|split].
      * split; [discriminate|]. intros (c & E & _). discriminate.
      * intros c E. discriminate.
      * split; [|discriminate].
        intros (l & [<-|[<-|[]]] & S0); discriminate.
    + split; [|split].
      * split; [discriminate|]. intros (c & E & _). discriminate.
      * intros c E. discriminate.
      * split; [|discriminate]. intros (l & [] & _).
Qed.

Lemma X9_check_env_verdict_witness :
  CheckEnv.exit (CheckEnv.check_env (CheckEnv.ReadOk CheckEnv.sample_env))
  = CheckEnv.Completed
  /\ CheckEnv.assigned "VITE_SUPABASE_URL" CheckEnv.sample_env.
Proof.
  assert (H : CheckEnv.exit
                (CheckEnv.check_env (CheckEnv.ReadOk CheckEnv.sample_env))
              = CheckEnv.Completed) by (vm_compute; reflexivity).
  split; [exact H|].
  destruct (proj1 (proj1 (X9_check_env_verdict
                            (CheckEnv.ReadOk CheckEnv.sample_env))) H)
    as (c & E & A).
  inversion E; subst c. apply A. left. reflexivity.
Defined.

(** X10: only the set of lines counts: two files with the same lines, in
    whatever order and however often repeated, get the same output and the
    same exit. *)
Theorem X10_line_order_is_irrelevant (s1 s2 : CheckEnv.jsstring) :
  (forall l, In l (CheckEnv.split_lines s1) <-> In l (CheckEnv.split_lines s2)) ->
  CheckEnv.check_env (CheckEnv.ReadOk s1)
  = CheckEnv.check_env (CheckEnv.ReadOk s2).
Proof.
  intros H.
  assert (M : CheckEnv.missingVars s1 = CheckEnv.missingVars s2).
  { unfold CheckEnv.missingVars. apply filter_ext_in. intros v Hv.
    f_equal.
    destruct (CheckEnv.regex_test v s1) eqn:T1,
             (CheckEnv.regex_test v s2) eqn:T2; try reflexivity.
    - apply (regex_test_required v s1 Hv) in T1. destruct T1 as (l & Hl & P).
      assert (A : CheckEnv.assigned v s2) by (exists l; split; [apply H|]; auto).
      apply (regex_test_required v s2 Hv) in A. congruence.
    - apply (regex_test_required v s2 Hv) in T2. destruct T2 as (l & Hl & P).
      assert (A : CheckEnv.assigned v s1) by (exists l; split; [apply H|]; auto).
      apply (regex_test_required v s1 Hv) in A. congruence. }
  cbn [CheckEnv.check_env]. rewrite M. reflexivity.
Qed.

Lemma X10_line_order_is_irrelevant_witness :
  (forall l,
      In l (CheckEnv.split_lines
              (CheckEnv.units "VITE_SUPABASE_URL=a" ++ [10%N]
               ++ CheckEnv.units "VITE_SUPABASE_ANON_KEY=b"))
      <-> In l (CheckEnv.split_lines
                  (CheckEnv.units "VITE_SUPABASE_ANON_KEY=b" ++ [13%N]
                   ++ CheckEnv.units "VITE_SUPABASE_URL=a" ++ [10%N]
                   ++ CheckEnv.units "VITE_SUPABASE_ANON_KEY=b")))
  /\ CheckEnv.check_env
       (CheckEnv.ReadOk (CheckEnv.units "VITE_SUPABASE_URL=a" ++ [10%N]
                         ++ CheckEnv.units "VITE_SUPABASE_ANON_KEY=b"))
     = CheckEnv.check_env
         (CheckEnv.ReadOk (CheckEnv.units "VITE_SUPABASE_ANON_KEY=b" ++ [13%N]
                           ++ CheckEnv.units "VITE_SUPABASE_URL=a" ++ [10%N]
                           ++ CheckEnv.units "VITE_SUPABASE_ANON_KEY=b")).
Proof.
  assert (H : forall l,
      In l (CheckEnv.split_lines
              (CheckEnv.units "VITE_SUPABASE_URL=a" ++ [10%N]
               ++ CheckEnv.units "VITE_SUPABASE_ANON_KEY=b"))
      <-> In l (CheckEnv.split_lines
                  (CheckEnv.units "VITE_SUPABASE_ANON_KEY=b" ++ [13%N]
                   ++ CheckEnv.units "VITE_SUPABASE_URL=a" ++ [10%N]
                   ++ CheckEnv.units "VITE_SUPABASE_ANON_KEY=b"))).
  { intros l. vm_compute. tauto. }
  split; [exact H|].
  exact (X10_line_order_is_irrelevant _ _ H).
Defined.


(** * Properties of the members table *)

Ltac open_world w :=
  destruct w as [[wms wld wq wer wsu] wp wf wu wd wts wnw wlg]; destruct wp.

(** ** The spinner *)

Lemma spinner_fetchMembers (w : Members.World) :
  Members.spinner_ok (Members.fetchMembers w).
Proof. intros _ _. open_world w; cbn; lia. Qed.

Lemma spinner_set_state (g : Members.State -> Members.State)
      (w : Members.World) :
  (forall s, Members.loading (g s) = Members.loading s) ->
  Members.spinner_ok w -> Members.spinner_ok (Members.set_state g w).
Proof.
  intros G H. unfold Members.set_state.
  destruct (Members.phase w) eqn:P; try exact H.
  unfold Members.spinner_ok, Members.with_st.
  cbn [Members.st Members.phase Members.fetches].
  rewrite G. intros _. apply H. exact P.
Qed.

Lemma spinner_frame (w w' : Members.World) :
  Members.phase w' = Members.phase w ->
  Members.loading (Members.st w') = Members.loading (Members.st w) ->
  (Members.fetches w <= Members.fetches w')%nat ->
  Members.spinner_ok w -> Members.spinner_ok w'.
Proof.
  unfold Members.spinner_ok. intros P L F H P' L'.
  rewrite P in P'. rewrite L in L'. specialize (H P' L'). lia.
Qed.

Lemma spinner_step (toLowerCase : string -> string)
      (w : Members.World) (e : Members.Event) :
  Members.spinner_ok w -> Members.spinner_ok (Members.step toLowerCase w e).
Proof.
  intros H. destruct e; cbn [Members.step].
  - (* Mount *)
    destruct (Members.phase w); try exact H. apply spinner_fetchMembers.
  - (* Unmount *)
    destruct (Members.phase w) eqn:P; try exact H.
    intros Q. discriminate.
  - (* FetchDone *)
    destruct (Members.fetches w); try exact H.
    intros P L. exfalso. revert P L. clear.
    unfold Members.fetchMembers_resume.
    destruct (Members.fetchError r); open_world w; cbn; intros; congruence.
  - (* Type_ *)
    destruct (Members.phase w); try exact H.
    destruct (Members.loading (Members.st w)); try exact H.
    apply spinner_set_state; [reflexivity|exact H].
  - (* ChangeRole *)
    destruct (Members.has_row toLowerCase memberId w); try exact H.
    apply (spinner_frame w); try exact H; clear; open_world w; cbn; auto.
  - (* UpdateDone *)
    destruct (Members.updates w) eqn:U; try exact H.
    destruct updateError as [err|].
    + apply (spinner_frame w); try exact H; clear; open_world w; cbn; auto.
    + intros _ _. clear. open_world w; cbn; lia.
  - (* ClickRemove *)
    destruct (Members.has_row toLowerCase memberId w); try exact H.
    apply (spinner_frame w); try exact H; clear;
      destruct confirmed; open_world w; cbn; auto.
  - (* DeleteDone *)
    destruct (Members.deletes w) eqn:D; try exact H.
    destruct deleteError as [err|].
    + apply (spinner_frame w); try exact H; clear; open_world w; cbn; auto.
    + intros _ _. clear. open_world w; cbn; lia.
  - (* Advance *)
    destruct (0 <=? dt); exact H.
  - (* TimerFire *)
    destruct (nth_error (Members.timers w) i) as [due|]; try exact H.
    destruct (due <=? Members.now w); try exact H.
    apply (spinner_frame w); try exact H; clear; open_world w; cbn; auto.
Qed.

Lemma spinner_run (toLowerCase : string -> string)
      (evs : list Members.Event) :
  forall w, Members.spinner_ok w ->
            Members.spinner_ok (Members.run toLowerCase w evs).
Proof.
  induction evs as [|e evs IH]; intros w H; [exact H|].
  change (Members.run toLowerCase w (e :: evs))
    with (Members.run toLowerCase (Members.step toLowerCase w e) evs).
  apply IH, spinner_step, H.
Qed.

(** X11: the spinner is shown only while a members query is in flight: in
    every world the mounted component can be in, [loading] implies that at
    least one select is awaiting its answer. *)
Theorem X11_spinner_only_while_fetching
        (toLowerCase : string -> string) (evs : list Members.Event) :
  Members.phase (Members.run toLowerCase Members.init evs) = Members.Mounted ->
  Members.loading (Members.st (Members.run toLowerCase Members.init evs)) = true ->
  (0 < Members.fetches (Members.run toLowerCase Members.init evs))%nat.
Proof.
  apply spinner_run. intros P. discriminate.
Qed.

Lemma X11_spinner_only_while_fetching_witness :
  Members.phase (Members.run Members.lower Members.init
                   [Members.Mount;
                    Members.FetchDone (Members.mkFetchResult
                                         (Some Members.sample_rows) None);
                    Members.ChangeRole "m1" Members.Member;
                    Members.UpdateDone None]) = Members.Mounted
  /\ Members.loading
       (Members.st (Members.run Members.lower Members.init
                      [Members.Mount;
                       Members.FetchDone (Members.mkFetchResult
                                            (Some Members.sample_rows) None);
                       Members.ChangeRole "m1" Members.Member;
                       Members.UpdateDone None])) = true
  /\ (0 < Members.fetches
            (Members.run Members.lower Members.init
               [Members.Mount;
                Members.FetchDone (Members.mkFetchResult
                                     (Some Members.sample_rows) None);
                Members.ChangeRole "m1" Members.Member;
                Members.UpdateDone None]))%nat.
Proof.
  assert (P : Members.phase (Members.run Members.lower Members.init
                   [Members.Mount;
                    Members.FetchDone (Members.mkFetchResult
                                         (Some Members.sample_rows) None);
                    Members.ChangeRole "m1" Members.Member;
                    Members.UpdateDone None]) = Members.Mounted)
    by (vm_compute; reflexivity).
  assert (L : Members.loading
       (Members.st (Members.run Members.lower Members.init
                      [Members.Mount;
                       Members.FetchDone (Members.mkFetchResult
                                            (Some Members.sample_rows) None);
                       Members.ChangeRole "m1" Members.Member;
                       Members.UpdateDone None])) = true)
    by (vm_compute; reflexivity).
  split; [exact P|]. split; [exact L|].
  exact (X11_spinner_only_while_fetching Members.lower _ P L).
Defined.

(** ** Where the list comes from *)




(** ** Failures *)

Lemma existsb_app_l (A : Type) (f : A -> bool) (l l' : list A) :
  existsb f l = true -> existsb f (l ++ l') = true.
Proof. intros H. rewrite existsb_app, H. reflexivity. Qed.

Lemma reported_frame (w w' : Members.World) (acts : list Members.Action) :
  Members.error (Members.st w') = Members.error (Members.st w)
  \/ Members.error (Members.st w') = None ->
  Members.log w' = Members.log w ++ acts ->
  Members.error_reported w -> Members.error_reported w'.
Proof.
  intros [E|E] L H m Hm; [|congruence].
  rewrite E in Hm. destruct (H m Hm) as [H1 H2].
  split; [exact H1|]. rewrite L. apply existsb_app_l, H2.
Qed.

Lemma reported_failure (w w' : Members.World) (label : string) :
  Members.error (Members.st w') = Members.error (Members.st w)
  \/ Members.error (Members.st w') = Some Members.msg_fetch_failed
  \/ Members.error (Members.st w') = Some Members.msg_update_failed
  \/ Members.error (Members.st w') = Some Members.msg_delete_failed ->
  Members.log w' = Members.log w ++ [Members.ConsoleError label] ->
  Members.error_reported w -> Members.error_reported w'.
Proof.
  intros E L H m Hm.
  assert (X : existsb Members.is_ConsoleError (Members.log w') = true).
  { rewrite L, existsb_app. cbn. apply orb_true_r. }
  split; [|exact X].
  destruct E as [E|[E|[E|E]]]; rewrite E in Hm.
  - apply (H m Hm).
  - inversion Hm; auto.
  - inversion Hm; auto.
  - inversion Hm; auto.
Qed.

Ltac frame_tac w acts :=
  apply (reported_frame w _ acts);
  [clear; open_world w; cbn; auto
  |clear; open_world w; cbn; rewrite <- ?app_assoc, ?app_nil_r; reflexivity
  |assumption].

Ltac failure_tac w label :=
  apply (reported_failure w _ label);
  [clear; open_world w; cbn; auto
  |clear; open_world w; cbn; reflexivity
  |assumption].

Lemma reported_step (toLowerCase : string -> string)
      (w : Members.World) (e : Members.Event) :
  Members.error_reported w ->
  Members.error_reported (Members.step toLowerCase w e).
Proof.
  intros H. destruct e; cbn [Members.step].
  - destruct (Members.phase w) eqn:P; try exact H.
    apply (reported_frame w _ [Members.Select]); [ | |exact H];
      revert P; clear; open_world w; cbn; intros; auto; discriminate.
  - destruct (Members.phase w); exact H.
  - destruct (Members.fetches w); try exact H.
    unfold Members.fetchMembers_resume.
    destruct (Members.fetchError r).
    + failure_tac w "Error fetching members:"%string.
    + frame_tac w (@nil Members.Action).
  - destruct (Members.phase w); try exact H.
    destruct (Members.loading (Members.st w)); try exact H.
    frame_tac w (@nil Members.Action).
  - destruct (Members.has_row toLowerCase memberId w); try exact H.
    frame_tac w [Members.Update memberId newRole].
  - destruct (Members.updates w); try exact H.
    destruct updateError as [err|].
    + failure_tac w "Error updating role:"%string.
    + frame_tac w [Members.Select; Members.SetTimeout 3000].
  - destruct (Members.has_row toLowerCase memberId w); try exact H.
    destruct confirmed.
    + frame_tac w [Members.Confirm; Members.Delete memberId].
    + frame_tac w [Members.Confirm].
  - destruct (Members.deletes w); try exact H.
    destruct deleteError as [err|].
    + failure_tac w "Error removing member:"%string.
    + frame_tac w [Members.Select; Members.SetTimeout 3000].
  - destruct (0 <=? dt); exact H.
  - destruct (nth_error (Members.timers w) i) as [due|]; try exact H.
    destruct (due <=? Members.now w); try exact H.
    frame_tac w (@nil Members.Action).
Qed.

Lemma reported_run (toLowerCase : string -> string)
      (evs : list Members.Event) :
  forall w, Members.error_reported w ->
            Members.error_reported (Members.run toLowerCase w evs).
Proof.
  induction evs as [|e evs IH]; intros w H; [exact H|].
  change (Members.run toLowerCase w (e :: evs))
    with (Members.run toLowerCase (Members.step toLowerCase w e) evs).
  apply IH, reported_step, H.
Qed.

(** X13: an error banner always stands for a failure that was written to
    the console: whenever [error] is set, it holds one of the three fixed
    messages and the log contains a [console.error] call. *)
Theorem X13_error_banner_is_diagnosed
        (toLowerCase : string -> string) (evs : list Members.Event)
        (m : string) :
  Members.error (Members.st (Members.run toLowerCase Members.init evs)) = Some m ->
  (m = Members.msg_fetch_failed \/ m = Members.msg_update_failed
   \/ m = Members.msg_delete_failed)
  /\ exists label,
       In (Members.ConsoleError label)
          (Members.log (Members.run toLowerCase Members.init evs)).
Proof.
  intros H.
  assert (R : Members.error_reported Members.init)
    by (intros k Hk; discriminate).
  destruct (reported_run toLowerCase evs Members.init R m H) as [M X].
  split; [exact M|].
  apply existsb_exists in X. destruct X as (a & Ha & Ia).
  destruct a; try discriminate. eauto.
Qed.

Lemma X13_error_banner_is_diagnosed_witness :
  Members.error
    (Members.st (Members.run Members.lower Members.init
                   [Members.Mount;
                    Members.FetchDone (Members.mkFetchResult
                                         None (Some "timeout"%string))]))
  = Some Members.msg_fetch_failed
  /\ exists label,
       In (Members.ConsoleError label)
          (Members.log (Members.run Members.lower Members.init
                          [Members.Mount;
                           Members.FetchDone (Members.mkFetchResult
                                                None (Some "timeout"%string))])).
Proof.
  assert (H : Members.error
    (Members.st (Members.run Members.lower Members.init
                   [Members.Mount;
                    Members.FetchDone (Members.mkFetchResult
                                         None (Some "timeout"%string))]))
              = Some Members.msg_fetch_failed) by (vm_compute; reflexivity).
  split; [exact H|].
  exact (proj2 (X13_error_banner_is_diagnosed Members.lower _ _ H)).
Defined.

(** ** The search filter *)

Lemma includes_empty (s : string) : Members.includes s "" = true.
Proof. destruct s; reflexivity. Qed.

(** X14: a member whose joined user record carries neither an e-mail
    address nor a name is never listed, whatever the search text; and with
    an empty search text (for a [toLowerCase] that maps the empty string to
    itself) the table lists exactly the members that have an e-mail address
    or a name, in the order of the list. *)
Theorem X14_search_filter
        (toLowerCase : string -> string) (s : Members.State) :
  (forall member,
      In member (Members.filteredMembers toLowerCase s) ->
      In member (Members.members s) /\ Members.identified member = true)
  /\ (toLowerCase ""%string = ""%string ->
      Members.searchQuery s = ""%string ->
      Members.filteredMembers toLowerCase s
      = filter Members.identified (Members.members s)).
Proof.
  split.
  - intros member H. unfold Members.filteredMembers in H.
    apply filter_In in H. destruct H as [H1 H2]. split; [exact H1|].
    unfold Members.identified, Members.field_matches in *.
    destruct (Members.user_email member), (Members.user_name member);
      auto.
  - intros L Q. unfold Members.filteredMembers. rewrite Q.
    apply filter_ext. intros member.
    unfold Members.identified, Members.field_matches. rewrite L.
    destruct (Members.user_email member), (Members.user_name member);
      rewrite ?includes_empty, ?orb_true_r; reflexivity.
Qed.

Lemma X14_search_filter_witness :
  (In (Members.mkMember "m3" "u3" "org" Members.Member "2024-03-01"
                        None (Some "Bob"%string))
      (Members.filteredMembers Members.lower
         (Members.mkState (map Members.formatMember Members.sample_rows)
                          false "bo"%string None None))
   /\ Members.identified
        (Members.mkMember "m3" "u3" "org" Members.Member "2024-03-01"
                          None (Some "Bob"%string)) = true)
  /\ Members.lower ""%string = ""%string
  /\ Members.searchQuery
       (Members.mkState (map Members.formatMember Members.sample_rows)
                        false ""%string None None) = ""%string
  /\ map Members.id
         (Members.filteredMembers Members.lower
            (Members.mkState (map Members.formatMember Members.sample_rows)
                             false ""%string None None))
     = ["m1"; "m3"]%string.
Proof.
  assert (H : In (Members.mkMember "m3" "u3" "org" Members.Member
                                   "2024-03-01" None (Some "Bob"%string))
                 (Members.filteredMembers Members.lower
                    (Members.mkState
                       (map Members.formatMember Members.sample_rows)
                       false "bo"%string None None)))
    by (vm_compute; left; reflexivity).
  split; [split; [exact H|]|].
  - exact (proj2 (proj1 (X14_search_filter Members.lower _) _ H)).
  - split; [reflexivity|]. split; [reflexivity|].
    rewrite (proj2 (X14_search_filter Members.lower
                      (Members.mkState
                         (map Members.formatMember Members.sample_rows)
                         false ""%string None None)) eq_refl eq_refl).
    reflexivity.
Defined.

(** ** Requests to the store *)

Lemma log_step_members (toLowerCase : string -> string)
      (w : Members.World) (e : Members.Event) (a : Members.Action) :
  In a (Members.log (Members.step toLowerCase w e)) ->
  In a (Members.log w) \/ Members.caused toLowerCase w e a.
Proof.
  assert (T : forall b, (forall x y, b <> Members.Update x y) ->
                        (forall x, b <> Members.Delete x) ->
                        In a (Members.log w ++ [b]) ->
                        In a (Members.log w)
                        \/ Members.caused toLowerCase w e a).
  { intros b U D H. apply in_app_or in H. destruct H as [H|[<-|[]]]; auto.
    right. destruct b; cbn; auto; [elim (U memberId newRole)|elim (D memberId)];
      reflexivity. }
  destruct e; cbn [Members.step].
  - destruct (Members.phase w) eqn:P; auto.
    intros H. apply (T Members.Select); try discriminate.
    revert H. clear. open_world w; cbn; auto.
  - destruct (Members.phase w); auto.
  - destruct (Members.fetches w); auto.
    unfold Members.fetchMembers_resume.
    destruct (Members.fetchError r).
    + intros H. apply (T (Members.ConsoleError "Error fetching members:"));
        try discriminate.
      revert H. clear. open_world w; cbn; auto.
    + intros H. left. revert H. clear. open_world w; cbn; auto.
  - destruct (Members.phase w); auto.
    destruct (Members.loading (Members.st w)); auto.
    intros H. left. revert H. clear. open_world w; cbn; auto.
  - destruct (Members.has_row toLowerCase memberId w) eqn:R; auto.
    intros H.
    assert (H' : In a (Members.log w ++ [Members.Update memberId newRole])).
    { revert H. clear. open_world w; cbn; auto. }
    apply in_app_or in H'. destruct H' as [H'|[<-|[]]]; auto.
    right. cbn. auto.
  - destruct (Members.updates w); auto.
    destruct updateError as [err|].
    + intros H. apply (T (Members.ConsoleError "Error updating role:"));
        try discriminate.
      revert H. clear. open_world w; cbn; auto.
    + intros H.
      assert (H' : In a ((Members.log w ++ [Members.Select])
                         ++ [Members.SetTimeout 3000])).
      { revert H. clear. open_world w; cbn; auto. }
      apply in_app_or in H'. destruct H' as [H'|[<-|[]]]; [|right; exact I].
      apply (T Members.Select); try discriminate. exact H'.
  - destruct (Members.has_row toLowerCase memberId w) eqn:R; auto.
    destruct confirmed.
    + intros H.
      assert (H' : In a ((Members.log w ++ [Members.Confirm])
                         ++ [Members.Delete memberId])).
      { revert H. clear. open_world w; cbn; auto. }
      apply in_app_or in H'. destruct H' as [H'|[<-|[]]].
      * apply (T Members.Confirm); try discriminate. exact H'.
      * right. cbn. auto.
    + intros H. apply (T Members.Confirm); try discriminate.
      revert H. clear. open_world w; cbn; auto.
  - destruct (Members.deletes w); auto.
    destruct deleteError as [err|].
    + intros H. apply (T (Members.ConsoleError "Error removing member:"));
        try discriminate.
      revert H. clear. open_world w; cbn; auto.
    + intros H.
      assert (H' : In a ((Members.log w ++ [Members.Select])
                         ++ [Members.SetTimeout 3000])).
      { revert H. clear. open_world w; cbn; auto. }
      apply in_app_or in H'. destruct H' as [H'|[<-|[]]]; [|right; exact I].
      apply (T Members.Select); try discriminate. exact H'.
  - destruct (0 <=? dt); auto.
  - destruct (nth_error (Members.timers w) i) as [due|]; auto.
    destruct (due <=? Members.now w); auto.
    intros H. left. revert H. clear. open_world w; cbn; auto.
Qed.

Lemma requests_run (toLowerCase : string -> string)
      (evs : list Members.Event) :
  forall (w : Members.World) (a : Members.Action),
    In a (Members.log (Members.run toLowerCase w evs)) ->
    In a (Members.log w)
    \/ exists evs1 e evs2,
         evs = evs1 ++ e :: evs2
         /\ Members.caused toLowerCase (Members.run toLowerCase w evs1) e a.
Proof.
  induction evs as [|e evs IH]; intros w a H; [left; exact H|].
  change (Members.run toLowerCase w (e :: evs))
    with (Members.run toLowerCase (Members.step toLowerCase w e) evs) in H.
  destruct (IH _ _ H) as [H1|(evs1 & e' & evs2 & -> & C)].
  - destruct (log_step_members toLowerCase w e a H1) as [H2|C]; [auto|].
    right. exists [], e, evs. split; [reflexivity|exact C].
  - right. exists (e :: evs1), e', evs2. split; [reflexivity|exact C].
Qed.

(** X15: the component sends a delete request only for a member whose
    removal the user confirmed, and an update request only for the role the
    user picked, in both cases for a member whose row was on screen at that
    moment. *)
Theorem X15_requests_follow_user_actions
        (toLowerCase : string -> string) (evs : list Members.Event)
        (memberId : string) :
  (In (Members.Delete memberId)
      (Members.log (Members.run toLowerCase Members.init evs)) ->
   exists evs1 evs2,
     evs = evs1 ++ Members.ClickRemove memberId true :: evs2
     /\ Members.has_row toLowerCase memberId
          (Members.run toLowerCase Members.init evs1) = true)
  /\ (forall newRole,
        In (Members.Update memberId newRole)
           (Members.log (Members.run toLowerCase Members.init evs)) ->
        exists evs1 evs2,
          evs = evs1 ++ Members.ChangeRole memberId newRole :: evs2
          /\ Members.has_row toLowerCase memberId
               (Members.run toLowerCase Members.init evs1) = true).
Proof.
  split.
  - intros H.
    destruct (requests_run toLowerCase evs Members.init _ H)
      as [[]|(evs1 & e & evs2 & -> & [-> R])].
    exists evs1, evs2. auto.
  - intros newRole H.
    destruct (requests_run toLowerCase evs Members.init _ H)
      as [[]|(evs1 & e & evs2 & -> & [-> R])].
    exists evs1, evs2. auto.
Qed.

Lemma X15_requests_follow_user_actions_witness :
  In (Members.Delete "m3")
     (Members.log (Members.run Members.lower Members.init
                     [Members.Mount;
                      Members.FetchDone (Members.mkFetchResult
                                           (Some Members.sample_rows) None);
                      Members.ClickRemove "m2" true;
                      Members.ClickRemove "m3" false;
                      Members.ClickRemove "m3" true]))
  /\ exists evs1 evs2,
       [Members.Mount;
        Members.FetchDone (Members.mkFetchResult
                             (Some Members.sample_rows) None);
        Members.ClickRemove "m2" true;
        Members.ClickRemove "m3" false;
        Members.ClickRemove "m3" true]
       = evs1 ++ Members.ClickRemove "m3" true :: evs2
       /\ Members.has_row Members.lower "m3"
            (Members.run Members.lower Members.init evs1) = true.
Proof.
  assert (H : In (Members.Delete "m3")
     (Members.log (Members.run Members.lower Members.init
                     [Members.Mount;
                      Members.FetchDone (Members.mkFetchResult
                                           (Some Members.sample_rows) None);
                      Members.ClickRemove "m2" true;
                      Members.ClickRemove "m3" false;
                      Members.ClickRemove "m3" true])))
    by (vm_compute; do 3 right; left; reflexivity).
  split; [exact H|].
  exact (proj1 (X15_requests_follow_user_actions Members.lower _ "m3") H).
Defined.
